(** * awslp.helpers: the LastPass login and SAML pipeline

    A shallow embedding of [awslp/helpers.py] and the properties of its
    key derivation, form scraping, assertion parsing, role prompt and
    HTTP request sites. *)

From Stdlib Require Import ZArith List String Ascii Bool Lia QArith DecimalString.
From Stdlib Require Import Strings.Byte.
From stdpp Require Import gmap strings.

Import ListNotations.
Set Warnings "-register-all".
Local Open Scope Z_scope.
Local Open Scope list_scope.

(** ** Exceptions and results

    A Python call either returns a value or raises.  The built-in and
    library exception classes that the module or its calls can raise are the
    constructors; [Custom] is an exception of a class declared elsewhere,
    given by the name of the class. *)

Inductive exn : Type :=
| TypeError
| OverflowError
| ZeroDivisionError
| StructError
| BinasciiError
| ValueError (msg : string)
| IndexError
| KeyError (key : string)
| AttributeError
| EOFError
| ParseError
| HTTPError (status : Z)
| ConnectionError
| Custom (class : string) (msg : string).

(** Modelled from the spec: the class [MfaRequiredException] is declared in
    awslp/exceptions.py, which is not among the sources; the specification
    makes it an error kind of its own, told apart from the generic failure
    of a login. *)
Definition MfaRequiredException (msg : string) : exn :=
  Custom "awslp.exceptions.MfaRequiredException" msg.

(** The error kind the specification names for bad derivation inputs.  The
    module declares no such class and raises none. *)
Definition InvalidParameterError (msg : string) : exn :=
  Custom "InvalidParameterError" msg.

Inductive result (A : Type) : Type :=
| Ok (a : A)
| Raise (e : exn).

Arguments Ok {A} a.
Arguments Raise {A} e.

Definition bind {A B : Type} (r : result A) (k : A -> result B) : result B :=
  match r with
  | Ok a => k a
  | Raise e => Raise e
  end.

Notation "x <- r ;; k" := (bind r (fun x => k))
  (at level 100, r at next level, right associativity).

(** ** Byte strings *)

Definition bytes : Type := list byte.

Definition Z_of_byte (b : byte) : Z := Z.of_N (Byte.to_N b).

Definition byte_of_Z (z : Z) : byte :=
  match Byte.of_N (Z.to_N (z mod 256)) with
  | Some b => b
  | None => x00
  end.

Definition bytes_of_string (s : string) : bytes := list_byte_of_string s.

(** [binascii.hexlify]: two lower-case hexadecimal digits per byte. *)

Definition hexdigit (n : Z) : byte :=
  if n <? 10 then byte_of_Z (48 + n) else byte_of_Z (87 + n).

Definition hexlify (data : bytes) : bytes :=
  flat_map (fun b => [hexdigit (Z_of_byte b / 16); hexdigit (Z_of_byte b mod 16)]) data.

(** [binascii.unhexlify]: digits of either case; an odd length or a
    character that is no hexadecimal digit raises [binascii.Error]. *)

Definition hexvalue (b : byte) : option Z :=
  let c := Z_of_byte b in
  if (48 <=? c) && (c <=? 57) then Some (c - 48)
  else if (97 <=? c) && (c <=? 102) then Some (c - 87)
  else if (65 <=? c) && (c <=? 70) then Some (c - 55)
  else None.

Fixpoint unhexlify (hexstr : bytes) : result bytes :=
  match hexstr with
  | [] => Ok []
  | [_] => Raise BinasciiError
  | hi :: lo :: rest =>
      match hexvalue hi, hexvalue lo with
      | Some h, Some l =>
          tl <- unhexlify rest ;; Ok (byte_of_Z (16 * h + l) :: tl)
      | _, _ => Raise BinasciiError
      end
  end.

(** ** SHA-256 and HMAC (hashlib.sha256, hmac)

    The digest the module obtains from [hashlib] and [hmac], written out
    after FIPS 180-4 and RFC 2104 so that the derivation can be run.  Words
    are 32-bit integers kept in [0, 2^32). *)

Module SHA256.

Definition w32 (z : Z) : Z := z mod 2 ^ 32.
Definition add32 (x y : Z) : Z := w32 (x + y).
Definition rotr (n x : Z) : Z :=
  Z.lor (Z.shiftr x n) (w32 (Z.shiftl x (32 - n))).
Definition not32 (x : Z) : Z := Z.lxor x (2 ^ 32 - 1).

Definition Ch (x y z : Z) : Z := Z.lxor (Z.land x y) (Z.land (not32 x) z).
Definition Maj (x y z : Z) : Z :=
  Z.lxor (Z.lxor (Z.land x y) (Z.land x z)) (Z.land y z).
Definition Sigma0 (x : Z) : Z := Z.lxor (Z.lxor (rotr 2 x) (rotr 13 x)) (rotr 22 x).
Definition Sigma1 (x : Z) : Z := Z.lxor (Z.lxor (rotr 6 x) (rotr 11 x)) (rotr 25 x).
Definition sigma0 (x : Z) : Z := Z.lxor (Z.lxor (rotr 7 x) (rotr 18 x)) (Z.shiftr x 3).
Definition sigma1 (x : Z) : Z := Z.lxor (Z.lxor (rotr 17 x) (rotr 19 x)) (Z.shiftr x 10).

(** The round constants are the first 32 bits of the fractional parts of
    the cube roots of the first 64 primes, and the initial hash value those
    of the square roots of the first 8 primes. *)
Fixpoint cube_root_bits (n : nat) (x r : Z) : Z :=
  match n with
  | O => r
  | S n' =>
      let c := r + 2 ^ Z.of_nat n' in
      if c * c * c <=? x then cube_root_bits n' x c else cube_root_bits n' x r
  end.

Definition cube_root (x : Z) : Z := cube_root_bits 40 x 0.

Definition is_prime (p : nat) : bool :=
  forallb (fun d => negb (p mod d =? 0)%nat) (seq 2 (p - 2)).

Definition primes : list Z :=
  Eval vm_compute in map Z.of_nat (List.filter is_prime (seq 2 310)).

Definition K : list Z :=
  Eval vm_compute in map (fun p => w32 (cube_root (p * 2 ^ 96))) primes.

(** The eight working variables, and the hash value between blocks. *)
Record state : Type := State {
  sa : Z; sb : Z; sc : Z; sd : Z; se : Z; sf : Z; sg : Z; sh : Z
}.

Definition root_bits (p : Z) : Z := w32 (Z.sqrt (p * 2 ^ 64)).

Definition H0 : state :=
  Eval vm_compute in
    State (root_bits 2) (root_bits 3) (root_bits 5) (root_bits 7)
          (root_bits 11) (root_bits 13) (root_bits 17) (root_bits 19).

(** Big-endian encodings. *)
Definition be32 (v : Z) : bytes :=
  [ byte_of_Z (Z.shiftr v 24); byte_of_Z (Z.shiftr v 16);
    byte_of_Z (Z.shiftr v 8); byte_of_Z v ].

Definition be64 (v : Z) : bytes := be32 (Z.shiftr v 32) ++ be32 v.

Definition word_of (b0 b1 b2 b3 : byte) : Z :=
  Z.lor (Z.lor (Z.lor (Z.shiftl (Z_of_byte b0) 24) (Z.shiftl (Z_of_byte b1) 16))
               (Z.shiftl (Z_of_byte b2) 8)) (Z_of_byte b3).

Fixpoint words_of (data : bytes) : list Z :=
  match data with
  | b0 :: b1 :: b2 :: b3 :: rest => word_of b0 b1 b2 b3 :: words_of rest
  | _ => []
  end.

(** Padding: the bit 1, zeros up to 56 modulo 64, then the bit length on
    eight bytes. *)
Definition pad (msg : bytes) : bytes :=
  let len := Z.of_nat (length msg) in
  let zeros := Z.to_nat ((55 - len) mod 64) in
  msg ++ [x80] ++ repeat x00 zeros ++ be64 (8 * len).

(** The message schedule, most recent word first. *)
Fixpoint schedule (n : nat) (ws : list Z) : list Z :=
  match n with
  | O => ws
  | S n' =>
      let w := add32 (add32 (sigma1 (nth 1 ws 0)) (nth 6 ws 0))
                     (add32 (sigma0 (nth 14 ws 0)) (nth 15 ws 0)) in
      schedule n' (w :: ws)
  end.

Definition round (s : state) (kw : Z * Z) : state :=
  let '(State a b c d e f g h) := s in
  let t1 := add32 (add32 (add32 h (Sigma1 e)) (add32 (Ch e f g) (fst kw))) (snd kw) in
  let t2 := add32 (Sigma0 a) (Maj a b c) in
  State (add32 t1 t2) a b c (add32 d t1) e f g.

Definition compress (hv : state) (block : list Z) : state :=
  let ws := rev (schedule 48 (rev block)) in
  let '(State a b c d e f g h) := fold_left round (combine K ws) hv in
  State (add32 (sa hv) a) (add32 (sb hv) b) (add32 (sc hv) c) (add32 (sd hv) d)
        (add32 (se hv) e) (add32 (sf hv) f) (add32 (sg hv) g) (add32 (sh hv) h).

Fixpoint blocks (n : nat) (ws : list Z) (hv : state) : state :=
  match n with
  | O => hv
  | S n' => blocks n' (skipn 16 ws) (compress hv (firstn 16 ws))
  end.

Definition digest_of (hv : state) : bytes :=
  be32 (sa hv) ++ be32 (sb hv) ++ be32 (sc hv) ++ be32 (sd hv) ++
  be32 (se hv) ++ be32 (sf hv) ++ be32 (sg hv) ++ be32 (sh hv).

Definition sha256 (msg : bytes) : bytes :=
  let padded := pad msg in
  digest_of (blocks (length padded / 64)%nat (words_of padded) H0).

End SHA256.

(** An [hmac.HMAC] object over SHA-256: the padded key and the message fed
    so far.  Objects are values, so [copy] is the identity. *)

Record HMAC : Type := {
  hmac_key : bytes;
  hmac_msg : bytes
}.

Definition block_size : nat := 64.
Definition digest_size : nat := 32.

Definition xor_pad (c : Z) (key : bytes) : bytes :=
  map (fun b => byte_of_Z (Z.lxor (Z_of_byte b) c)) key.

Definition hmac_new (key : bytes) : HMAC :=
  let key := if (block_size <? length key)%nat then SHA256.sha256 key else key in
  {| hmac_key := key ++ repeat x00 (block_size - length key);
     hmac_msg := [] |}.

Definition hmac_copy (h : HMAC) : HMAC := h.

Definition hmac_update (h : HMAC) (data : bytes) : HMAC :=
  {| hmac_key := hmac_key h; hmac_msg := hmac_msg h ++ data |}.

Definition hmac_digest (h : HMAC) : bytes :=
  SHA256.sha256 (xor_pad 0x5c (hmac_key h) ++
                 SHA256.sha256 (xor_pad 0x36 (hmac_key h) ++ hmac_msg h)).

Definition ascii_bytes (s : string) : bytes := bytes_of_string s.

(** ** Numbers, [/] and [range]

    [(length + 31) / 32] divides two ints.  In the language of the module
    (it uses f-strings, so it is Python 3 source) [/] is true division and
    yields a float, or raises [OverflowError] when the quotient is too large
    for a double.  [division] names the meaning of [/]; the module has the
    one, [TrueDivision].  A float carries the exact quotient: no use below
    depends on its rounding. *)

Inductive num : Type :=
| PyInt (z : Z)
| PyFloat (q : Q).

Inductive division : Type :=
| TrueDivision.

(** The least magnitude that rounds to 2^1024, beyond the largest double. *)
Definition float_overflow : Z := 2 ^ 1024 - 2 ^ 970.

Definition slash (d : division) (a b : Z) : result num :=
  if b =? 0 then Raise ZeroDivisionError
  else match d with
       | TrueDivision =>
           if float_overflow * Z.abs b <=? Z.abs a then Raise OverflowError
           else Ok (PyFloat (Qmake (a * Z.sgn b) (Z.to_pos (Z.abs b))))
       end.

(** [range(start, stop)]: only an int is accepted as a bound. *)
Definition range (start : Z) (stop : num) : result (list Z) :=
  match stop with
  | PyInt n => Ok (map (fun i => start + Z.of_nat i) (seq 0 (Z.to_nat (n - start))))
  | PyFloat _ => Raise TypeError
  end.

(** [struct.pack('>I', v)] *)
Definition struct_pack_I (v : Z) : result bytes :=
  if (0 <=? v) && (v <? 2 ^ 32) then Ok (SHA256.be32 v) else Raise StructError.

(** [s[0:stop]] *)
Definition slice0 {A : Type} (s : list A) (stop : Z) : list A :=
  firstn (Z.to_nat (if stop <? 0 then Z.of_nat (length s) + stop else stop)) s.

(** ** Key derivation

    The body of [pbkdf2] works on byte strings ([''], [chr], [ord] of the
    string type it was written for); the model follows it on [bytes]. *)

Definition xorbytes (string_a string_b : bytes) : bytes :=
  map (fun xy => byte_of_Z (Z.lxor (Z_of_byte (fst xy)) (Z_of_byte (snd xy))))
      (combine string_a string_b).

Definition prf (hsh : HMAC) (data : bytes) : bytes :=
  let hshm := hmac_copy hsh in
  let hshm := hmac_update hshm data in
  hmac_digest hshm.

(** One pass of [for _ in range(1, rounds)]; the state is [(index, hval)]. *)
Definition pbkdf2_round (hsh : HMAC) (st : bytes * bytes) (_ : Z) : bytes * bytes :=
  let hval := prf hsh (snd st) in
  let index := xorbytes (fst st) hval in
  (index, hval).

(** The body of [for block in range(...)]: the value of [index] that is
    appended to [key]. *)
Definition pbkdf2_block (hsh : HMAC) (salt : bytes) (rounds : Z) (block : Z)
  : result bytes :=
  packed <- struct_pack_I (block + 1) ;;
  let hval := prf hsh (salt ++ packed) in
  let index := hval in
  passes <- range 1 (PyInt rounds) ;;
  Ok (fst (fold_left (pbkdf2_round hsh) passes (index, hval))).

Definition pbkdf2_step (hsh : HMAC) (salt : bytes) (rounds : Z)
  (acc : result bytes) (block : Z) : result bytes :=
  key <- acc ;;
  index <- pbkdf2_block hsh salt rounds block ;;
  Ok (key ++ index).

Definition pbkdf2 (d : division) (password salt : bytes) (rounds length : Z)
  : result bytes :=
  let key := [] in
  let hsh := hmac_new password in
  n <- slash d (length + 31) 32 ;;
  blocks <- range 0 n ;;
  key <- fold_left (pbkdf2_step hsh salt rounds) blocks (Ok key) ;;
  Ok (hexlify (slice0 key length)).

Definition lastpass_login_hash (d : division) (username password : bytes)
  (iterations : Z) : result bytes :=
  hexkey <- pbkdf2 d password username iterations 32 ;;
  key <- unhexlify hexkey ;;
  result <- pbkdf2 d key password 1 32 ;;
  Ok result.

(** *** PBKDF2 after RFC 2898, section 5.2, with HMAC-SHA256 as the PRF

    [F (P, S, c, i) = U_1 xor U_2 xor ... xor U_c] with
    [U_1 = PRF (P, S || INT (i))] and [U_j = PRF (P, U_{j-1})];
    [DK = T_1 || ... || T_l] cut to [dkLen] bytes, [l = ceil (dkLen / hLen)]. *)

Module RFC2898.

Definition PRF (P data : bytes) : bytes :=
  hmac_digest (hmac_update (hmac_new P) data).

Definition INT (i : Z) : bytes := SHA256.be32 i.

(** [U P S i j] is [U_{j+1}]. *)
Fixpoint U (P S : bytes) (i : Z) (j : nat) : bytes :=
  match j with
  | O => PRF P (S ++ INT i)
  | Datatypes.S j' => PRF P (U P S i j')
  end.

(** [F P S c i] for [c >= 1] rounds; [c] counts the rounds after the first. *)
Fixpoint F_upto (P S : bytes) (i : Z) (c : nat) : bytes :=
  match c with
  | O => U P S i 0
  | Datatypes.S c' => xorbytes (F_upto P S i c') (U P S i c)
  end.

Definition F (P S : bytes) (c : Z) (i : Z) : bytes :=
  F_upto P S i (Z.to_nat (c - 1)).

Definition ceil_div (a b : Z) : Z := (a + b - 1) / b.

Definition DK (P S : bytes) (c dkLen : Z) : bytes :=
  let l := ceil_div dkLen 32 in
  firstn (Z.to_nat dkLen)
    (concat (map (fun i => F P S c (Z.of_nat i)) (seq 1 (Z.to_nat l)))).

End RFC2898.

(** ** Text

    A [str] is modelled as a [string]: a sequence of code points below 256. *)

Local Open Scope string_scope.
Local Open Scope Z_scope.

Definition dq : ascii := ascii_of_nat 34.
Definition dquote : string := String dq EmptyString.
Definition newline : ascii := ascii_of_nat 10.
Definition nl : string := String newline EmptyString.

Fixpoint drop (n : nat) (s : string) : string :=
  match n, s with
  | S n', String _ s' => drop n' s'
  | _, _ => s
  end.

(** [strip_prefix p s]: the rest of [s] after the literal [p]. *)
Definition strip_prefix (p s : string) : option string :=
  if String.prefix p s then Some (drop (String.length p) s) else None.

(** [x in s] on strings. *)
Fixpoint contains (x s : string) : bool :=
  String.prefix x s ||
  match s with
  | EmptyString => false
  | String _ s' => contains x s'
  end.

(** [s.replace(old, new)] for a non-empty [old]: occurrences are replaced
    from left to right, without overlap.  [skip] counts the characters of an
    occurrence still to be passed over. *)
Fixpoint replace_from (old new : string) (skip : nat) (s : string) : string :=
  match s with
  | EmptyString => EmptyString
  | String c s' =>
      match skip with
      | S k => replace_from old new k s'
      | O =>
          if String.prefix old s
          then new +:+ replace_from old new (String.length old - 1) s'
          else String c (replace_from old new 0 s')
      end
  end.

Definition replace (old new s : string) : string := replace_from old new 0 s.

(** [s.splitlines()]: the line boundaries among the code points below 256;
    a carriage return followed by a line feed is one boundary, and no empty
    line is produced after a final boundary. *)
Definition is_linebreak (c : ascii) : bool :=
  let n := nat_of_ascii c in
  ((10 <=? n) && (n <=? 13) || (28 <=? n) && (n <=? 30) || (n =? 133))%nat.

Fixpoint splitlines_from (cur : string) (after_cr : bool) (s : string) : list string :=
  match s with
  | EmptyString => if String.eqb cur EmptyString then [] else [cur]
  | String c s' =>
      if after_cr && Ascii.eqb c newline then splitlines_from EmptyString false s'
      else if is_linebreak c
           then cur :: splitlines_from EmptyString (Ascii.eqb c (ascii_of_nat 13)) s'
           else splitlines_from (cur +:+ String c EmptyString) false s'
  end.

Definition splitlines (s : string) : list string := splitlines_from EmptyString false s.

(** [s.split(sep, maxsplit)] for a one-character separator. *)
Fixpoint split (sep : ascii) (maxsplit : nat) (s : string) : list string :=
  match s with
  | EmptyString => [EmptyString]
  | String c s' =>
      match maxsplit with
      | O => [s]
      | S m =>
          if Ascii.eqb c sep then EmptyString :: split sep m s'
          else match split sep maxsplit s' with
               | h :: t => String c h :: t
               | [] => [String c EmptyString]
               end
      end
  end.

(** ** The three patterns of the module

    Each matcher is the backtracking search of [re] specialised to one
    pattern.  In the comments QUOTED stands for the part of a pattern that
    matches a double quote, a captured run of characters other than the
    double quote, and a double quote. *)

(** The characters up to the next double quote, and what follows the
    quote. *)
Fixpoint until_quote (s : string) : option (string * string) :=
  match s with
  | EmptyString => None
  | String c s' =>
      if Ascii.eqb c dq then Some (EmptyString, s')
      else match until_quote s' with
           | Some (g, rest) => Some (String c g, rest)
           | None => None
           end
  end.

(** [lit QUOTED] at the start of [s], for a literal [lit]: an attribute
    name and the equals sign. *)
Definition quoted (lit s : string) : option (string * string) :=
  match strip_prefix (lit +:+ dquote) s with
  | Some s1 => until_quote s1
  | None => None
  end.

(** The groups of the field pattern: [name=QUOTED], a space, optionally
    [id=QUOTED] and a space (group 2, with the value of id as group 3), then
    [value=QUOTED]. *)
Record field_match : Type := {
  group1 : string;
  group2 : string;
  group3 : string;
  group4 : string
}.

(** A match of the field pattern at the start of [s], with what follows it.
    The optional group is tried first, then skipped. *)
Definition field_at (s : string) : option (field_match * string) :=
  match quoted "name=" s with
  | None => None
  | Some (g1, s1) =>
      match strip_prefix " " s1 with
      | None => None
      | Some s2 =>
          let without_id :=
            match quoted "value=" s2 with
            | Some (g4, rest) =>
                Some ({| group1 := g1; group2 := EmptyString;
                         group3 := EmptyString; group4 := g4 |}, rest)
            | None => None
            end in
          match quoted "id=" s2 with
          | None => without_id
          | Some (g3, s3) =>
              match strip_prefix " " s3 with
              | None => without_id
              | Some s4 =>
                  match quoted "value=" s4 with
                  | Some (g4, rest) =>
                      Some ({| group1 := g1;
                               group2 := "id=" +:+ dquote +:+ g3 +:+ dquote +:+ " ";
                               group3 := g3; group4 := g4 |}, rest)
                  | None => without_id
                  end
              end
          end
      end
  end.

(** [re.findall]: matches from left to right without overlap; after a match
    the scan resumes where the match ended. *)
Fixpoint findall_fields_from (skip : nat) (s : string) : list field_match :=
  match s with
  | EmptyString => []
  | String _ s' =>
      match skip with
      | S k => findall_fields_from k s'
      | O =>
          match field_at s with
          | Some (m, rest) =>
              m :: findall_fields_from (String.length s - String.length rest - 1) s'
          | None => findall_fields_from 0 s'
          end
      end
  end.

Definition findall_fields (html : string) : list field_match :=
  findall_fields_from 0 html.

(** [re.search] for [action=QUOTED] in [html]: group 1 of the leftmost
    match. *)
Fixpoint search_action (html : string) : option string :=
  match quoted "action=" html with
  | Some (g, _) => Some g
  | None =>
      match html with
      | EmptyString => None
      | String _ s' => search_action s'
      end
  end.

(** A greedy run of any characters but the line feed, captured, then the
    closing h2 tag, at the start of [s]: the longest such run. *)
Fixpoint greedy_h2_body (s : string) : option string :=
  match s with
  | EmptyString => None
  | String c s' =>
      let here := if String.prefix "</h2>" s then Some EmptyString else None in
      if Ascii.eqb c newline then here
      else match greedy_h2_body s' with
           | Some g => Some (String c g)
           | None => here
           end
  end.

(** [re.search] for the opening h2 tag, the greedy run and the closing tag
    in [line]: group 1 of the leftmost match. *)
Fixpoint search_h2 (line : string) : option string :=
  let here :=
    match strip_prefix "<h2>" line with
    | Some body => greedy_h2_body body
    | None => None
    end in
  match here with
  | Some g => Some g
  | None =>
      match line with
      | EmptyString => None
      | String _ s' => search_h2 s'
      end
  end.

(** ** Form scraping *)

Record form : Type := {
  action : string;
  fields : gmap string string
}.

(** Every match is a tuple of four groups, so the test on the length of a
    match always passes and is left out. *)
Definition extract_form (html : string) : form :=
  let matches := findall_fields html in
  let fields :=
    fold_left (fun (fields : gmap string string) m =>
                 <[group1 m := group4 m]> fields) matches ∅ in
  let action :=
    match search_action html with
    | Some g => g
    | None => EmptyString
    end in
  {| action := action; fields := fields |}.

(** ** Element trees (xml.etree.ElementTree)

    The parser is a library function and is taken as a parameter below; its
    result is an element: a tag (with its namespace in braces, as the parser
    produces it), the attributes, the text before the first child, and the
    children in document order. *)

Inductive element : Type :=
| Element (tag : string) (attrib : gmap string string) (text : option string)
          (children : list element).

Definition tag (e : element) : string := let 'Element t _ _ _ := e in t.
Definition attrib (e : element) : gmap string string := let 'Element _ a _ _ := e in a.
Definition text (e : element) : option string := let 'Element _ _ t _ := e in t.
Definition children (e : element) : list element := let 'Element _ _ _ c := e in c.

(** [elem.get(key)] *)
Definition get (e : element) (key : string) : option string := attrib e !! key.

(** [elem.iter()]: the element and its descendants, in document order. *)
Fixpoint iter (e : element) : list element :=
  match e with
  | Element _ _ _ cs => e :: flat_map iter cs
  end.

(** The step [.//tag]: the descendants with that tag, the element itself
    excluded. *)
Definition descendants (t : string) (e : element) : list element :=
  List.filter (fun d => String.eqb (tag d) t) (flat_map iter (children e)).

(** The step [tag]: the children with that tag. *)
Definition child_step (t : string) (e : element) : list element :=
  List.filter (fun c => String.eqb (tag c) t) (children e).

(** [elem.find(tag)]: the first child with that tag. *)
Definition find (t : string) (e : element) : option element :=
  head (child_step t e).

Definition saml_ns : string := "urn:oasis:names:tc:SAML:2.0:assertion".
Definition role_attrib : string := "https://aws.amazon.com/SAML/Attributes/Role".

(** A prefixed name resolved through the namespace map of the call. *)
Definition saml (local_name : string) : string := "{" +:+ saml_ns +:+ "}" +:+ local_name.

(** [doc.findall(xpath, namespace)] for the path
    [.//saml:Attribute[@Name='...']/saml:AttributeValue]. *)
Definition findall_role_values (doc : element) : list element :=
  flat_map (child_step (saml "AttributeValue"))
    (List.filter (fun a => bool_decide (get a "Name" = Some role_attrib))
            (descendants (saml "Attribute") doc)).

(** A list comprehension whose element expression may raise. *)
Fixpoint comprehension {A B : Type} (f : A -> result B) (l : list A) : result (list B) :=
  match l with
  | [] => Ok []
  | a :: l' => b <- f a ;; bs <- comprehension f l' ;; Ok (b :: bs)
  end.

(** [a.text.split(',', 2)] *)
Definition role_of (a : element) : result (list string) :=
  match text a with
  | Some t => Ok (split "," 2 t)
  | None => Raise AttributeError
  end.

(** ** HTTP

    A [requests] session is a state of some type [Session] and a function
    [send] that answers a request, or raises, and gives the next state.  The
    requests sent are recorded next to the session. *)

Inductive value : Type :=
| VStr (s : string)
| VBytes (b : bytes)
| VInt (z : Z).

Inductive http_method : Type := GET | POST.

Record request : Type := {
  req_method : http_method;
  req_url : string;
  req_data : gmap string value;
  req_verify : bool
}.

Record response : Type := {
  status_code : Z;
  response_text : string
}.

(** [response.raise_for_status()] *)
Definition raise_for_status (r : response) : result unit :=
  if (400 <=? status_code r) && (status_code r <? 600)
  then Raise (HTTPError (status_code r)) else Ok tt.

Definition LASTPASS_SERVER : string := "https://lastpass.com".

Definition should_verify (lastpass_server : string) : bool :=
  contains LASTPASS_SERVER lastpass_server.

(** The interpolation of a value that may be [None] into an f-string. *)
Definition format_option (o : option string) : string :=
  match o with
  | Some s => s
  | None => "None"
  end.

(** The loop of [get_saml_token] over the lines of the page: [error] after
    the loop. *)
Definition scrape_line (unescape : string -> string) (error line : string) : string :=
  match search_h2 line with
  | Some g =>
      let msg := unescape g in
      let msg := replace "<br/>" nl msg in
      let msg := replace "<b>" EmptyString msg in
      let msg := replace "</b>" EmptyString msg in
      String newline msg
  | None => error
  end.

Definition scrape_error (unescape : string -> string) (page : string) : string :=
  fold_left (scrape_line unescape) (splitlines page) EmptyString.

Section Pipeline.

(** The library functions the module calls and does not define. *)
Context {Session : Type}.
Variable send : Session -> request -> result response * Session.
(** [int(s)]: [None] stands for [ValueError]. *)
Variable py_int : string -> option Z.
(** [ElementTree.fromstring] *)
Variable fromstring : string -> result element.
(** [HTMLParser().unescape], a method of the interpreters up to 3.8 *)
Variable unescape : string -> string.
(** [base64.b64decode] *)
Variable b64decode : string -> result string.

Record world : Type := {
  session : Session;
  sent : list request
}.

Definition http (A : Type) : Type := world -> result A * world.

Definition ret {A : Type} (a : A) : http A := fun w => (Ok a, w).
Definition throw {A : Type} (e : exn) : http A := fun w => (Raise e, w).
Definition lift {A : Type} (r : result A) : http A := fun w => (r, w).
Definition and_then {A B : Type} (m : http A) (k : A -> http B) : http B :=
  fun w =>
    match m w with
    | (Ok a, w') => k a w'
    | (Raise e, w') => (Raise e, w')
    end.

Notation "x <~ m ;; k" := (and_then m (fun x => k))
  (at level 100, m at next level, right associativity).

Definition session_request (req : request) : http response :=
  fun w =>
    let (r, s) := send (session w) req in
    (r, {| session := s; sent := sent w ++ [req] |}).

Definition session_post (url : string) (data : gmap string value) (verify : bool)
  : http response :=
  session_request {| req_method := POST; req_url := url;
                     req_data := data; req_verify := verify |}.

Definition session_get (url : string) (verify : bool) : http response :=
  session_request {| req_method := GET; req_url := url;
                     req_data := ∅; req_verify := verify |}.

Definition int (s : string) : result Z :=
  match py_int s with
  | Some z => Ok z
  | None => Raise (ValueError "invalid literal for int() with base 10")
  end.

Definition lastpass_iterations (lastpass_server : string) (username : bytes)
  : http Z :=
  let iterations := 5000 in
  let lp_iterations_page := lastpass_server +:+ "/iterations.php" in
  let params : gmap string value := {[ "email" := VBytes username ]} in
  response <~ session_post lp_iterations_page params
                (should_verify lastpass_server) ;;
  if status_code response =? 200
  then lift (int (response_text response))
  else ret iterations.

(** The form fields of the login request. *)
Definition login_params (username hash : bytes) (iterations : Z)
  (otp : option string) : gmap string value :=
  let params : gmap string value :=
    <[ "iterations" := VInt iterations ]>
      (<[ "hash" := VBytes hash ]>
         (<[ "username" := VBytes username ]>
            (<[ "xml" := VStr "1" ]> {[ "method" := VStr "web" ]}))) in
  match otp with
  | Some o => <[ "otp" := VStr o ]> params
  | None => params
  end.

(** What [lastpass_login] does with the parsed answer: the statements after
    [ElementTree.fromstring]. *)
Definition check_login_document (doc : element) : result unit :=
  let error := find "error" doc in
  match error with
  | Some error =>
      let cause := get error "cause" in
      if bool_decide (cause = Some "googleauthrequired")
      then Raise (MfaRequiredException "Need MFA for this login")
      else
        let reason := get error "message" in
        Raise (ValueError ("Could not login to lastpass: " +:+ format_option reason))
  | None => Ok tt
  end.

(** The calls to the logger are left out, here and in [get_saml_token]. *)
Definition lastpass_login (d : division) (lastpass_server : string)
  (username password : bytes) (otp : option string) : http unit :=
  iterations <~ lastpass_iterations lastpass_server username ;;
  let lp_login_page := lastpass_server +:+ "/login.php" in
  hash <~ lift (lastpass_login_hash d username password iterations) ;;
  let params := login_params username hash iterations otp in
  response <~ session_post lp_login_page params
                (should_verify lastpass_server) ;;
  _ <~ lift (raise_for_status response) ;;
  doc <~ lift (fromstring (response_text response)) ;;
  lift (check_login_document doc).

Definition get_saml_token (lastpass_server saml_cfg_id : string) : http string :=
  let idp_login := lastpass_server +:+ "/saml/launch/cfg/" +:+ saml_cfg_id in
  response <~ session_get idp_login (should_verify lastpass_server) ;;
  let form := extract_form (response_text response) in
  if String.eqb (action form) EmptyString
  then
    let error := scrape_error unescape (response_text response) in
    throw (ValueError ("Unable to find SAML ACS" +:+ error))
  else
    match fields form !! "SAMLResponse" with
    | Some v => lift (b64decode v)
    | None => throw (KeyError "SAMLResponse")
    end.

Definition get_saml_aws_roles (assertion : string) : result (list (list string)) :=
  doc <- fromstring assertion ;;
  let attribs := findall_role_values doc in
  comprehension role_of attribs.

(** [doc.find(path, namespace).text] for the path [.//saml:NameID]: the text
    of the first descendant with the tag, [None] when that element has no
    text; without such a descendant [find] gives [None], whose [text]
    raises. *)
Definition get_saml_nameid (assertion : string) : result (option string) :=
  doc <- fromstring assertion ;;
  match head (descendants (saml "NameID") doc) with
  | Some e => Ok (text e)
  | None => Raise AttributeError
  end.

End Pipeline.

(** ** The role prompt

    The console is the lines still to be read and the chunks written so
    far: [print] writes its argument and a line feed, [input] writes the
    prompt and reads one line, and raises [EOFError] when none is left. *)

Record console : Type := {
  stdin : list string;
  stdout : list string
}.

Definition print (s : string) (c : console) : console :=
  {| stdin := stdin c; stdout := stdout c ++ [s +:+ nl] |}.

Definition decimal (z : Z) : string :=
  DecimalString.NilZero.string_of_int (Z.to_int z).

(** [l[i]]; a negative index counts from the end. *)
Definition getitem {A : Type} (l : list A) (i : Z) : result A :=
  let j := if i <? 0 then Z.of_nat (length l) + i else i in
  if j <? 0 then Raise IndexError
  else match nth_error l (Z.to_nat j) with
       | Some a => Ok a
       | None => Raise IndexError
       end.

Section Prompt.

Variable py_int : string -> option Z.

(** [for role in roles: print(...); count = count + 1] *)
Fixpoint print_roles (roles : list (list string)) (count : Z) (c : console)
  : result unit * console :=
  match roles with
  | [] => (Ok tt, c)
  | role :: rest =>
      match getitem role 0 with
      | Ok name =>
          print_roles rest (count + 1)
            (print ("  " +:+ decimal count +:+ ") " +:+ name) c)
      | Raise e => (Raise e, c)
      end
  end.

(** [while choice < 1 or choice > len(roles) + 1: ...], by recursion on
    the lines still to be read. *)
Fixpoint choice_loop (len_roles : Z) (choice : Z) (lines out : list string)
  : result Z * console :=
  if (choice <? 1) || (choice >? len_roles + 1)
  then
    match lines with
    | [] => (Raise EOFError, {| stdin := []; stdout := out ++ ["Choice: "] |})
    | line :: rest =>
        let choice :=
          match py_int line with
          | Some z => z
          | None => 0
          end in
        choice_loop len_roles choice rest (out ++ ["Choice: "])
    end
  else (Ok choice, {| stdin := lines; stdout := out |}).

Definition prompt_for_role (roles : list (list string)) (c : console)
  : result (list string) * console :=
  if (length roles =? 1)%nat then (getitem roles 0, c)
  else
    let c := print "Please select a role:" c in
    let count := 1 in
    match print_roles roles count c with
    | (Raise e, c) => (Raise e, c)
    | (Ok _, c) =>
        let choice := 0 in
        match choice_loop (Z.of_nat (length roles)) choice (stdin c) (stdout c) with
        | (Raise e, c) => (Raise e, c)
        | (Ok choice, c) => (getitem roles (choice - 1), c)
        end
    end.

End Prompt.

(** [int] on the decimal strings: optional blanks, an optional sign, digits
    with single underscores between them, optional blanks. *)

Definition is_space (c : ascii) : bool :=
  let n := nat_of_ascii c in
  ((9 <=? n) && (n <=? 13) || (n =? 32) || (n =? 133) || (n =? 160))%nat.

Definition digit_of (c : ascii) : option Z :=
  let n := Z.of_nat (nat_of_ascii c) in
  if (48 <=? n) && (n <=? 57) then Some (n - 48) else None.

Fixpoint lstrip (s : string) : string :=
  match s with
  | String c s' => if is_space c then lstrip s' else s
  | EmptyString => s
  end.

(** The digits after the first one; [after_underscore] tells that a digit is
    due.  Blanks may close the literal. *)
Fixpoint digits (acc : Z) (after_underscore : bool) (s : string) : option Z :=
  match s with
  | EmptyString => if after_underscore then None else Some acc
  | String c s' =>
      match digit_of c with
      | Some v => digits (10 * acc + v) false s'
      | None =>
          if after_underscore then None
          else if Ascii.eqb c "_" then digits acc true s'
          else if String.eqb (lstrip s) EmptyString then Some acc
          else None
      end
  end.

Definition unsigned_literal (s : string) : option Z :=
  match s with
  | String c s' =>
      match digit_of c with
      | Some v => digits v false s'
      | None => None
      end
  | EmptyString => None
  end.

Definition int_decimal (s : string) : option Z :=
  match lstrip s with
  | String "-" s' => option_map Z.opp (unsigned_literal s')
  | String "+" s' => unsigned_literal s'
  | s' => unsigned_literal s'
  end.

(** ** The requests of the pipeline, and stand-ins for the examples *)

Definition iterations_request (lastpass_server : string) (username : bytes) : request :=
  {| req_method := POST;
     req_url := lastpass_server +:+ "/iterations.php";
     req_data := {[ "email" := VBytes username ]};
     req_verify := should_verify lastpass_server |}.

Definition login_request (lastpass_server : string) (username hash : bytes)
  (iterations : Z) (otp : option string) : request :=
  {| req_method := POST;
     req_url := lastpass_server +:+ "/login.php";
     req_data := login_params username hash iterations otp;
     req_verify := should_verify lastpass_server |}.

Definition sso_request (lastpass_server saml_cfg_id : string) : request :=
  {| req_method := GET;
     req_url := lastpass_server +:+ "/saml/launch/cfg/" +:+ saml_cfg_id;
     req_data := ∅;
     req_verify := should_verify lastpass_server |}.

(** The state after [req] was sent and the session moved to [s]. *)
Definition after {Session : Type} (w : @world Session) (s : Session) (req : request)
  : @world Session :=
  {| session := s; sent := sent w ++ [req] |}.

(** A parser known on the documents of a table: each text listed parses to
    the tree next to it. *)
Fixpoint fromstring_table (table : list (string * element)) (s : string)
  : result element :=
  match table with
  | [] => Raise ParseError
  | (t, doc) :: table' => if String.eqb s t then Ok doc else fromstring_table table' s
  end.

(** A server without state: the answer depends on the request alone. *)
Definition stateless (answer : request -> result response)
  : unit -> request -> result response * unit :=
  fun s req => (answer req, s).

Definition fresh : @world unit := {| session := tt; sent := [] |}.

(** A server that answers the discovery request with [discovery] and any
    other request with [other]. *)
Definition answers (discovery other : response) (req : request) : result response :=
  if contains "/iterations.php" (req_url req) then Ok discovery else Ok other.

Definition ok_response (body : string) : response :=
  {| status_code := 200; response_text := body |}.

Definition example_user : bytes := ascii_bytes "user@example.com".
Definition example_password : bytes := ascii_bytes "password".

(** Answers of the login endpoint, as text and as the tree the text parses
    to. *)
Definition mfa_text : string :=
  "<response><error cause=" +:+ dquote +:+ "googleauthrequired" +:+ dquote +:+
  "/></response>".
Definition mfa_doc : element :=
  Element "response" ∅ None
    [Element "error" {[ "cause" := "googleauthrequired" ]} None []].

Definition nested_mfa_text : string :=
  "<response><ok><error cause=" +:+ dquote +:+ "googleauthrequired" +:+ dquote +:+
  "/></ok></response>".
Definition nested_mfa_doc : element :=
  Element "response" ∅ None
    [Element "ok" ∅ None
       [Element "error" {[ "cause" := "googleauthrequired" ]} None []]].

Definition second_mfa_text : string :=
  "<response><error cause=" +:+ dquote +:+ "unknownemail" +:+ dquote +:+
  " message=" +:+ dquote +:+ "Unknown email address." +:+ dquote +:+
  "/><error cause=" +:+ dquote +:+ "googleauthrequired" +:+ dquote +:+
  "/></response>".
Definition second_mfa_doc : element :=
  Element "response" ∅ None
    [Element "error" {[ "cause" := "unknownemail";
                        "message" := "Unknown email address." ]} None [];
     Element "error" {[ "cause" := "googleauthrequired" ]} None []].

Definition login_documents : list (string * element) :=
  [(mfa_text, mfa_doc); (nested_mfa_text, nested_mfa_doc);
   (second_mfa_text, second_mfa_doc)].

(** [c in s] for one character. *)
Fixpoint has_char (c : ascii) (s : string) : bool :=
  match s with
  | EmptyString => false
  | String c' s' => Ascii.eqb c' c || has_char c s'
  end.

(** The assertion of the two-role example, as text and as the tree the text
    parses to; and one whose value has a third component. *)
Definition attribute_value (v : string) : string :=
  "<AttributeValue>" +:+ v +:+ "</AttributeValue>".

Definition assertion_text (values : list string) : string :=
  "<Assertion xmlns=" +:+ dquote +:+ saml_ns +:+ dquote +:+ "><AttributeStatement>" +:+
  "<Attribute Name=" +:+ dquote +:+ role_attrib +:+ dquote +:+ ">" +:+
  String.concat EmptyString (map attribute_value values) +:+
  "</Attribute></AttributeStatement></Assertion>".

Definition assertion_doc (values : list string) : element :=
  Element (saml "Assertion") ∅ None
    [Element (saml "AttributeStatement") ∅ None
       [Element (saml "Attribute") {[ "Name" := role_attrib ]} None
          (map (fun v => Element (saml "AttributeValue") ∅ (Some v) []) values)]].

Definition role_A : string := "arn:aws:iam::111:role/A,arn:aws:iam::111:saml-provider/IdP".
Definition role_B : string := "arn:aws:iam::111:role/B,arn:aws:iam::111:saml-provider/IdP".
Definition role_C : string :=
  "arn:aws:iam::111:role/C,arn:aws:iam::111:saml-provider/IdP,3600,eu-west-1".

Definition assertions : list (string * element) :=
  [(assertion_text [role_A; role_B], assertion_doc [role_A; role_B]);
   (assertion_text [role_C], assertion_doc [role_C])].

Definition example_roles : list (list string) := [split "," 2 role_A; split "," 2 role_B].

(** The text a match of the field pattern spans. *)
Definition field_text (m : field_match) : string :=
  "name=" +:+ dquote +:+ group1 m +:+ dquote +:+ " " +:+ group2 m +:+
  "value=" +:+ dquote +:+ group4 m +:+ dquote.

(** The page of the form example, and a page with two forms. *)
Definition form_page : string :=
  "<form action=" +:+ dquote +:+ "https://x/acs" +:+ dquote +:+ "><input name=" +:+
  dquote +:+ "SAMLResponse" +:+ dquote +:+ " value=" +:+ dquote +:+ "abc123" +:+ dquote +:+
  "/></form>".

Definition two_forms_page : string :=
  form_page +:+
  "<form action=" +:+ dquote +:+ "https://y/other" +:+ dquote +:+ "><input name=" +:+
  dquote +:+ "RelayState" +:+ dquote +:+ " id=" +:+ dquote +:+ "rs" +:+ dquote +:+
  " value=" +:+ dquote +:+ "xyz" +:+ dquote +:+ "/></form>".

(** What the loop of [get_saml_token] does to the group of a heading. *)
Definition cleaned (unescape : string -> string) (g : string) : string :=
  replace "</b>" EmptyString (replace "<b>" EmptyString (replace "<br/>" nl (unescape g))).

(** A text within one line. *)
Fixpoint no_linebreak (s : string) : bool :=
  match s with
  | EmptyString => true
  | String c s' => negb (is_linebreak c) && no_linebreak s'
  end.

(** Error pages: one heading, and two headings on two lines. *)
Definition error_page : string := "<html><h2>Error message</h2></html>".

Definition two_headings_page : string :=
  "<h2>Error message</h2>" +:+ nl +:+
  "<h2>Please contact <b>support</b><br/>today</h2>".

(** ** Further notions for the properties of the prompt *)

(** An entry the prompt passes over: [int] refuses it, or the number is
    outside the window of the loop. *)
Definition refused (py_int : string -> option Z) (len_roles : Z) (line : string) : bool :=
  match py_int line with
  | Some z => (z <? 1) || (z >? len_roles + 1)
  | None => true
  end.

(** Launch pages: a form with an action and no field, and a form whose
    action is empty. *)
Definition action_only_page : string :=
  "<form action=" +:+ dquote +:+ "https://x/acs" +:+ dquote +:+ "></form>".

Definition empty_action_page : string :=
  "<form action=" +:+ dquote +:+ dquote +:+ "><input name=" +:+ dquote +:+
  "SAMLResponse" +:+ dquote +:+ " value=" +:+ dquote +:+ "abc123" +:+ dquote +:+
  "/></form>".

(** An assertion with two name identifiers, the first one nested, as text
    and as the tree the text parses to. *)
Definition nameid_text : string :=
  "<Assertion xmlns=" +:+ dquote +:+ saml_ns +:+ dquote +:+
  "><Subject><NameID>user@example.com</NameID></Subject><NameID>other</NameID></Assertion>".

Definition nameid_doc : element :=
  Element (saml "Assertion") ∅ None
    [Element (saml "Subject") ∅ None
       [Element (saml "NameID") ∅ (Some "user@example.com") []];
     Element (saml "NameID") ∅ (Some "other") []].

(** ** The shell handoff (aws_lp/shell.py)

    A [Shell] object holds the environment [env], a dictionary.  A handoff
    writes one start-up file through [tempdir] and starts one process
    through [subprocess.call]; both are library or absent code and are
    parameters: [tempdir name text] is the path of the directory made for
    the file, [call] the return code of the process.  The effects of a
    handoff are given as data. *)

Record subprocess_call : Type := {
  call_args : string;
  call_env : gmap string string;
  call_executable : string
}.

Record handoff_effects : Type := {
  rc_name : string;
  rc_text : string;
  started : subprocess_call;
  returned : Z;
  env_after : gmap string string
}.

(** [self.env.update(kwargs)] *)
Definition update_env (kwargs env : gmap string string) : gmap string string :=
  kwargs ∪ env.

(** The sixteen blanks before each line of the two start-up texts. *)
Definition indent : string := "                ".

Definition bashrc_updates (prompt_message : string) : string :=
  if String.eqb prompt_message EmptyString then EmptyString
  else
    nl +:+ indent +:+ "PS1=" +:+ dquote +:+ "\[\e[\33m\](" +:+ prompt_message +:+
    ")\[\e[0m\] $PS1" +:+ dquote +:+ nl +:+ indent.

Definition zshrc_updates (prompt_message : string) : string :=
  if String.eqb prompt_message EmptyString then EmptyString
  else
    nl +:+ indent +:+ "setopt PROMPT_SUBST" +:+ nl +:+ indent +:+ "PROMPT=" +:+ dquote +:+
    "%F{yellow}(" +:+ prompt_message +:+ ")%f $PROMPT" +:+ dquote +:+ nl +:+ indent.

Section Shell.

Variable tempdir : string -> string -> string.
Variable call : subprocess_call -> Z.

Definition handoff_bash (prompt_message : string) (env : gmap string string)
  : handoff_effects :=
  let text := bashrc_updates prompt_message in
  let dirpath := tempdir ".bashrc" text in
  let process :=
    {| call_args := "bash --rcfile " +:+ dirpath +:+ "/.bashrc";
       call_env := env; call_executable := "bash" |} in
  {| rc_name := ".bashrc"; rc_text := text; started := process;
     returned := call process; env_after := env |}.

Definition handoff_zsh (prompt_message : string) (env : gmap string string)
  : handoff_effects :=
  let text := zshrc_updates prompt_message in
  let dirpath := tempdir ".zshrc" text in
  let env := update_env {[ "ZDOTDIR" := dirpath ]} env in
  let process :=
    {| call_args := "zsh"; call_env := env; call_executable := "zsh" |} in
  {| rc_name := ".zshrc"; rc_text := text; started := process;
     returned := call process; env_after := env |}.

Definition handoff (prompt_message : string) (env : gmap string string)
  : handoff_effects :=
  if contains "zsh" (default "bash" (env !! "SHELL"))
  then handoff_zsh prompt_message env
  else handoff_bash prompt_message env.

End Shell.

(** * Properties *)

Local Open Scope list_scope.

(** ** Results *)

Lemma bind_Ok {A B : Type} (r : result A) (k : A -> result B) (b : B) :
  bind r k = Ok b -> exists a, r = Ok a /\ k a = Ok b.
Proof. destruct r as [a|e]; simpl; intros H; [eauto | discriminate]. Qed.

(** ** Hexadecimal encoding *)

Lemma hexvalue_high (b : byte) :
  hexvalue (hexdigit (Z_of_byte b / 16)) = Some (Z_of_byte b / 16).
Proof. destruct b; vm_compute; reflexivity. Qed.

Lemma hexvalue_low (b : byte) :
  hexvalue (hexdigit (Z_of_byte b mod 16)) = Some (Z_of_byte b mod 16).
Proof. destruct b; vm_compute; reflexivity. Qed.

Lemma byte_of_nibbles (b : byte) :
  byte_of_Z (16 * (Z_of_byte b / 16) + Z_of_byte b mod 16) = b.
Proof. destruct b; vm_compute; reflexivity. Qed.

Lemma unhexlify_hexlify (data : bytes) : unhexlify (hexlify data) = Ok data.
Proof.
  induction data as [|b data IH]; [reflexivity|].
  change (hexlify (b :: data))
    with (hexdigit (Z_of_byte b / 16) :: hexdigit (Z_of_byte b mod 16) :: hexlify data).
  cbn [unhexlify]. rewrite hexvalue_high, hexvalue_low, IH. cbn [bind].
  now rewrite byte_of_nibbles.
Qed.

Lemma length_hexlify (data : bytes) : length (hexlify data) = (2 * length data)%nat.
Proof.
  induction data as [|b data IH]; [reflexivity|].
  change (hexlify (b :: data))
    with (hexdigit (Z_of_byte b / 16) :: hexdigit (Z_of_byte b mod 16) :: hexlify data).
  cbn [length]. lia.
Qed.

(** ** Digests *)

Lemma length_sha256 (msg : bytes) : length (SHA256.sha256 msg) = 32%nat.
Proof. reflexivity. Qed.

Lemma length_hmac_digest (h : HMAC) : length (hmac_digest h) = digest_size.
Proof. reflexivity. Qed.

Lemma length_prf (hsh : HMAC) (data : bytes) : length (prf hsh data) = 32%nat.
Proof. reflexivity. Qed.

Lemma length_xorbytes (a b : bytes) :
  length (xorbytes a b) = Nat.min (length a) (length b).
Proof. unfold xorbytes. now rewrite length_map, length_combine. Qed.

Example sha256_abc :
  hexlify (SHA256.sha256 (ascii_bytes "abc")) =
  ascii_bytes "ba7816bf8f01cfea414140de5dae2223b00361a396177a9cb410ff61f20015ad".
Proof. vm_compute. reflexivity. Qed.

Example sha256_empty :
  hexlify (SHA256.sha256 []) =
  ascii_bytes "e3b0c44298fc1c149afbf4c8996fb92427ae41e4649b934ca495991b7852b855".
Proof. vm_compute. reflexivity. Qed.

Example sha256_two_blocks :
  hexlify (SHA256.sha256
    (ascii_bytes "abcdbcdecdefdefgefghfghighijhijkijkljklmklmnlmnomnopnopq")) =
  ascii_bytes "248d6a61d20638b8e5c026930c3e6039a33ce45964ff2167f6ecedd419db06c1".
Proof. vm_compute. reflexivity. Qed.

(** RFC 4231, test case 2. *)
Example hmac_sha256_rfc4231_2 :
  hexlify (hmac_digest (hmac_update (hmac_new (ascii_bytes "Jefe"))
                          (ascii_bytes "what do ya want for nothing?"))) =
  ascii_bytes "5bdcc146bf60754e6a042426089575c75a003f089d2739839dec58b964ec3843".
Proof. vm_compute. reflexivity. Qed.

(** ** The loops of [pbkdf2] against RFC 2898 *)

Lemma prf_is_PRF (P data : bytes) : prf (hmac_new P) data = RFC2898.PRF P data.
Proof. reflexivity. Qed.

Lemma length_U (P S : bytes) (i : Z) (j : nat) : length (RFC2898.U P S i j) = 32%nat.
Proof. destruct j; reflexivity. Qed.

Lemma length_F_upto (P S : bytes) (i : Z) (c : nat) :
  length (RFC2898.F_upto P S i c) = 32%nat.
Proof.
  induction c as [|c IH]; [reflexivity|].
  cbn [RFC2898.F_upto]. rewrite length_xorbytes, IH, length_U. reflexivity.
Qed.

(** The passes of the inner loop, started after [k] rounds. *)
Lemma rounds_loop (P S : bytes) (i : Z) (passes : list Z) (k : nat) :
  fold_left (pbkdf2_round (hmac_new P)) passes
            (RFC2898.F_upto P S i k, RFC2898.U P S i k) =
  (RFC2898.F_upto P S i (k + length passes), RFC2898.U P S i (k + length passes)).
Proof.
  revert k. induction passes as [|p passes IH]; intros k.
  - cbn. now rewrite Nat.add_0_r.
  - cbn [fold_left length]. unfold pbkdf2_round at 2. cbn [fst snd].
    rewrite prf_is_PRF.
    change (RFC2898.PRF P (RFC2898.U P S i k)) with (RFC2898.U P S i (Datatypes.S k)).
    change (xorbytes (RFC2898.F_upto P S i k) (RFC2898.U P S i (Datatypes.S k)))
      with (RFC2898.F_upto P S i (Datatypes.S k)).
    rewrite IH. now replace (Datatypes.S k + length passes)%nat
      with (k + Datatypes.S (length passes))%nat by lia.
Qed.

Lemma range_int (start stop : Z) :
  range start (PyInt stop) =
  Ok (map (fun i => start + Z.of_nat i) (seq 0 (Z.to_nat (stop - start)))).
Proof. reflexivity. Qed.

(** The body of the outer loop computes [F] of the RFC for block index
    [block + 1]. *)
Lemma pbkdf2_block_F (P S : bytes) (rounds block : Z) :
  0 <= block < 2 ^ 32 - 1 ->
  pbkdf2_block (hmac_new P) S rounds block = Ok (RFC2898.F P S rounds (block + 1)).
Proof.
  intros Hb. unfold pbkdf2_block, struct_pack_I.
  replace ((0 <=? block + 1) && (block + 1 <? 2 ^ 32)) with true
    by (symmetry; apply andb_true_iff; split; [apply Z.leb_le|apply Z.ltb_lt]; lia).
  cbn [bind]. rewrite range_int. cbn [bind]. rewrite prf_is_PRF.
  change (RFC2898.PRF P (S ++ SHA256.be32 (block + 1)))
    with (RFC2898.U P S (block + 1) 0).
  change (RFC2898.U P S (block + 1) 0) with (RFC2898.F_upto P S (block + 1) 0) at 1.
  rewrite rounds_loop. cbn [fst]. rewrite length_map, length_seq.
  reflexivity.
Qed.

(** A pass count below one runs no pass: the block is that of one round. *)
Lemma pbkdf2_block_rounds_below_1 (hsh : HMAC) (salt : bytes) (rounds block : Z) :
  rounds <= 1 ->
  pbkdf2_block hsh salt rounds block = pbkdf2_block hsh salt 1 block.
Proof.
  intros H. unfold pbkdf2_block. rewrite !range_int.
  replace (Z.to_nat (rounds - 1)) with 0%nat by lia. reflexivity.
Qed.

Lemma blocks_loop (P S : bytes) (rounds : Z) (n : nat) (key : bytes) :
  Z.of_nat n <= 2 ^ 32 - 1 ->
  fold_left (pbkdf2_step (hmac_new P) S rounds)
            (map (fun i => 0 + Z.of_nat i) (seq 0 n)) (Ok key) =
  Ok (key ++ concat (map (fun i => RFC2898.F P S rounds (Z.of_nat i)) (seq 1 n))).
Proof.
  induction n as [|n IH]; intros Hn.
  - cbn. now rewrite app_nil_r.
  - rewrite !seq_S, !map_app, fold_left_app, IH by lia.
    cbn [map fold_left]. unfold pbkdf2_step at 1. cbn [bind].
    rewrite pbkdf2_block_F by lia. cbn [bind].
    rewrite concat_app. cbn [concat]. rewrite app_nil_r, app_assoc.
    repeat f_equal. lia.
Qed.

(** Under true division the block count is a float, or the division
    overflows. *)
Lemma slash_true (a : Z) :
  slash TrueDivision a 32 = Raise OverflowError \/
  exists q, slash TrueDivision a 32 = Ok (PyFloat q).
Proof.
  unfold slash. cbn [Z.eqb].
  destruct (float_overflow * Z.abs 32 <=? Z.abs a); eauto.
Qed.

Lemma length_concat_F (P S : bytes) (c : Z) (l : list nat) :
  length (concat (map (fun i => RFC2898.F P S c (Z.of_nat i)) l)) = (32 * length l)%nat.
Proof.
  induction l as [|i l IH]; [reflexivity|].
  cbn [map concat length]. rewrite length_app, IH.
  unfold RFC2898.F. rewrite length_F_upto. lia.
Qed.

Lemma length_DK (P S : bytes) (c dkLen : Z) :
  0 <= dkLen -> length (RFC2898.DK P S c dkLen) = Z.to_nat dkLen.
Proof.
  intros H. unfold RFC2898.DK. rewrite length_firstn, length_concat_F, length_seq.
  apply Nat.min_l. unfold RFC2898.ceil_div.
  assert (dkLen <= 32 * ((dkLen + 32 - 1) / 32)).
  { pose proof (Z.div_mod (dkLen + 32 - 1) 32 ltac:(lia)).
    pose proof (Z.mod_pos_bound (dkLen + 32 - 1) 32 ltac:(lia)). lia. }
  assert (0 <= (dkLen + 32 - 1) / 32) by (apply Z.div_pos; lia).
  lia.
Qed.

(** ** Key derivation: what [pbkdf2] and [lastpass_login_hash] return *)

Lemma fold_left_pointwise {A B : Type} (f g : A -> B -> A) (l : list B) (a : A) :
  (forall x y, f x y = g x y) -> fold_left f l a = fold_left g l a.
Proof.
  intros H. revert a. induction l as [|b l IH]; intros a; [reflexivity|].
  cbn. now rewrite H, IH.
Qed.

Lemma pbkdf2_block_raises (hsh : HMAC) (salt : bytes) (rounds block : Z) (e : exn) :
  pbkdf2_block hsh salt rounds block = Raise e -> e = StructError.
Proof.
  unfold pbkdf2_block, struct_pack_I.
  destruct ((0 <=? block + 1) && (block + 1 <? 2 ^ 32)); cbn [bind].
  - rewrite range_int. cbn [bind]. intros H. inversion H.
  - intros H. now inversion H.
Qed.

Lemma blocks_loop_raises (hsh : HMAC) (salt : bytes) (rounds : Z) (blocks : list Z)
  (acc : result bytes) (e : exn) :
  fold_left (pbkdf2_step hsh salt rounds) blocks acc = Raise e ->
  acc = Raise e \/ e = StructError.
Proof.
  revert acc. induction blocks as [|b blocks IH]; intros acc; cbn [fold_left].
  - now left.
  - intros H. apply IH in H as [H | H]; [|now right].
    unfold pbkdf2_step in H. destruct acc as [key|e']; cbn in H.
    + destruct (pbkdf2_block hsh salt rounds b) as [index|e'] eqn:E; cbn in H.
      * discriminate.
      * injection H as <-. right. eapply pbkdf2_block_raises, E.
    + now left.
Qed.

(** The exceptions [pbkdf2] can raise. *)
Lemma pbkdf2_raises (d : division) (password salt : bytes) (rounds length : Z) (e : exn) :
  pbkdf2 d password salt rounds length = Raise e ->
  e = TypeError \/ e = OverflowError \/ e = StructError.
Proof.
  unfold pbkdf2. destruct d.
  destruct (slash_true (length + 31)) as [-> | [q ->]]; cbn.
  - intros [= <-]. auto.
  - intros [= <-]. auto.
Qed.

(** Under true division [pbkdf2] returns nothing. *)
Lemma pbkdf2_true_division_not_Ok (password salt : bytes) (rounds length : Z) (h : bytes) :
  pbkdf2 TrueDivision password salt rounds length <> Ok h.
Proof.
  unfold pbkdf2.
  destruct (slash_true (length + 31)) as [-> | [q ->]]; cbn; discriminate.
Qed.

(** C1. In the language of the module [(length + 31) / 32] is a float (or
    the division overflows), [range] refuses it, and [pbkdf2] raises on
    every input: no password, salt, round count or length yields a key.  For
    the password password, the salt salt, one round and 32 bytes it raises
    [TypeError]. *)
Theorem pbkdf2_raises_under_true_division :
  (forall (password salt : bytes) (rounds length : Z),
     pbkdf2 TrueDivision password salt rounds length = Raise TypeError \/
     pbkdf2 TrueDivision password salt rounds length = Raise OverflowError) /\
  pbkdf2 TrueDivision (ascii_bytes "password") (ascii_bytes "salt") 1 32 = Raise TypeError.
Proof.
  split.
  - intros password salt rounds length. unfold pbkdf2.
    destruct (slash_true (length + 31)) as [-> | [q ->]]; cbn; auto.
  - vm_compute. reflexivity.
Qed.

(** With [/] as true division the login hash raises [TypeError] for every
    user, password and iteration count. *)
Lemma lastpass_login_hash_true_division (username password : bytes) (iterations : Z) :
  lastpass_login_hash TrueDivision username password iterations = Raise TypeError.
Proof.
  unfold lastpass_login_hash, pbkdf2.
  change (slash TrueDivision (32 + 31) 32) with (Ok (PyFloat (Qmake 63 32))).
  reflexivity.
Qed.

(** C2. In the language of the module [lastpass_login_hash] composes
    nothing: for every user name, password and iteration count its first
    derivation, of 32 bytes from the password with the user name as salt,
    raises [TypeError], so no key reaches the second derivation and the
    function raises [TypeError] where a hash is due; so it does for the
    user user@example.com, the password password and 5000 iterations. *)
Theorem lastpass_login_hash_returns_no_hash :
  (forall (username password : bytes) (iterations : Z),
     pbkdf2 TrueDivision password username iterations 32 = Raise TypeError /\
     lastpass_login_hash TrueDivision username password iterations = Raise TypeError /\
     forall hash,
       lastpass_login_hash TrueDivision username password iterations <> Ok hash) /\
  lastpass_login_hash TrueDivision example_user example_password 5000 = Raise TypeError.
Proof.
  assert (H : forall username password iterations,
             lastpass_login_hash TrueDivision username password iterations =
             Raise TypeError).
  { intros username password iterations. unfold lastpass_login_hash, pbkdf2.
    change (slash TrueDivision (32 + 31) 32) with (Ok (PyFloat (Qmake 63 32))).
    reflexivity. }
  split; [|apply H].
  intros username password iterations. split; [|split].
  - unfold pbkdf2.
    change (slash TrueDivision (32 + 31) 32) with (Ok (PyFloat (Qmake 63 32))).
    reflexivity.
  - apply H.
  - intros hash E. rewrite H in E. discriminate E.
Qed.

(** C9 as stated fails: with a round count of zero, or a length of zero,
    [pbkdf2] raises [TypeError], as it does on the other inputs; it does
    not raise [InvalidParameterError]. *)
Lemma pbkdf2_zero_rounds_or_length :
  pbkdf2 TrueDivision (ascii_bytes "password") (ascii_bytes "salt") 0 32 = Raise TypeError /\
  pbkdf2 TrueDivision (ascii_bytes "password") (ascii_bytes "salt") 1 0 = Raise TypeError /\
  forall msg,
    pbkdf2 TrueDivision (ascii_bytes "password") (ascii_bytes "salt") 0 32 <>
      Raise (InvalidParameterError msg) /\
    pbkdf2 TrueDivision (ascii_bytes "password") (ascii_bytes "salt") 1 0 <>
      Raise (InvalidParameterError msg).
Proof.
  split; [vm_compute; reflexivity|]. split; [vm_compute; reflexivity|].
  intros msg. split; intros H; vm_compute in H; inversion H.
Qed.

(** C9, amended. [pbkdf2] checks neither argument: whatever the password,
    the salt, the round count and the length, it does not raise
    [InvalidParameterError]. *)
Theorem pbkdf2_checks_no_parameter :
  forall (d : division) (password salt : bytes) (rounds length : Z) (msg : string),
    pbkdf2 d password salt rounds length <> Raise (InvalidParameterError msg).
Proof.
  intros d password salt rounds length msg H.
  apply pbkdf2_raises in H as [H | [H | H]]; discriminate.
Qed.

(** ** Strings *)

Lemma append_nil_l (s : string) : EmptyString +:+ s = s.
Proof. reflexivity. Qed.

Lemma append_cons (c : ascii) (s t : string) : String c s +:+ t = String c (s +:+ t).
Proof. reflexivity. Qed.

Lemma append_nil_r (s : string) : s +:+ EmptyString = s.
Proof. induction s as [|c s IH]; [reflexivity|]. now rewrite append_cons, IH. Qed.

Lemma append_assoc (s t u : string) : (s +:+ t) +:+ u = s +:+ t +:+ u.
Proof. induction s as [|c s IH]; [reflexivity|]. now rewrite !append_cons, IH. Qed.

Lemma length_append (s t : string) :
  String.length (s +:+ t) = (String.length s + String.length t)%nat.
Proof. induction s as [|c s IH]; [reflexivity|]. rewrite append_cons. cbn. now rewrite IH. Qed.

Lemma prefix_spec (p s : string) :
  String.prefix p s = true <-> exists rest, s = p +:+ rest.
Proof.
  revert s. induction p as [|a p IH]; intros s.
  - split; [intros _; now exists s | intros _; now destruct s].
  - destruct s as [|b s]; cbn.
    + split; [discriminate | intros [rest H]; discriminate].
    + destruct (ascii_dec a b) as [->|Hne].
      * rewrite IH. split; intros [rest H]; exists rest; [now rewrite H | now injection H].
      * split; [discriminate | intros [rest H]; injection H; congruence].
Qed.

Lemma contains_spec (x s : string) :
  contains x s = true <-> exists pre post, s = pre +:+ x +:+ post.
Proof.
  induction s as [|c s IH].
  - cbn [contains]. rewrite orb_false_r, prefix_spec. split.
    + intros [rest H]. now exists EmptyString, rest.
    + intros (pre & post & H). destruct pre; [now exists post | discriminate].
  - cbn [contains]. rewrite orb_true_iff, prefix_spec, IH. split.
    + intros [[rest H] | (pre & post & H)].
      * now exists EmptyString, rest.
      * exists (String c pre), post. now rewrite H.
    + intros (pre & post & H). destruct pre as [|c' pre].
      * left. now exists post.
      * right. injection H as _ H. now exists pre, post.
Qed.

(** ** The HTTP stages *)

Section Stages.

Context {Session : Type}.
Variable send : Session -> request -> result response * Session.
Variable py_int : string -> option Z.
Variable fromstring : string -> result element.
Variable unescape : string -> string.
Variable b64decode : string -> result string.

Lemma lastpass_iterations_run (server : string) (username : bytes) (w : @world Session) :
  lastpass_iterations send py_int server username w =
  match send (session w) (iterations_request server username) with
  | (Ok resp, s) =>
      (if status_code resp =? 200 then int py_int (response_text resp) else Ok 5000,
       after w s (iterations_request server username))
  | (Raise e, s) => (Raise e, after w s (iterations_request server username))
  end.
Proof.
  unfold lastpass_iterations, and_then, session_post, session_request.
  fold (iterations_request server username).
  destruct (send (session w) (iterations_request server username)) as [[resp|e] s];
    [|reflexivity].
  now destruct (status_code resp =? 200).
Qed.

(** With [/] as true division the login stops at the hash: once the
    iteration count is known it raises [TypeError], and the login request
    is not sent. *)
Lemma lastpass_login_true_division (server : string) (username password : bytes)
  (otp : option string) (w w1 : @world Session) (iterations : Z) :
  lastpass_iterations send py_int server username w = (Ok iterations, w1) ->
  lastpass_login send py_int fromstring TrueDivision server username password otp w =
  (Raise TypeError, w1).
Proof.
  intros Hit. unfold lastpass_login, and_then. rewrite Hit.
  unfold lift at 1. now rewrite lastpass_login_hash_true_division.
Qed.

(** C4, amended. When the discovery request is answered: any status other
    than 200 gives the default 5000 without an error; status 200 with a
    body that [int] accepts gives that integer; status 200 with a body
    that [int] refuses raises [ValueError]. *)
Theorem lastpass_iterations_outcome (server : string) (username : bytes) (w : @world Session)
  (resp : response) (s : Session) :
  send (session w) (iterations_request server username) = (Ok resp, s) ->
  let w1 := after w s (iterations_request server username) in
  (status_code resp <> 200 ->
   lastpass_iterations send py_int server username w = (Ok 5000, w1)) /\
  (status_code resp = 200 -> forall n, py_int (response_text resp) = Some n ->
   lastpass_iterations send py_int server username w = (Ok n, w1)) /\
  (status_code resp = 200 -> py_int (response_text resp) = None ->
   exists msg,
     lastpass_iterations send py_int server username w = (Raise (ValueError msg), w1)).
Proof.
  intros Hsend w1. repeat split.
  - intros H. rewrite lastpass_iterations_run, Hsend.
    apply Z.eqb_neq in H. now rewrite H.
  - intros H n Hn. rewrite lastpass_iterations_run, Hsend, H. cbn.
    unfold int. now rewrite Hn.
  - intros H Hn. rewrite lastpass_iterations_run, Hsend, H. cbn.
    unfold int. rewrite Hn. eauto.
Qed.

(** [find]: the first child with the tag. *)
Lemma find_first_child (t : string) (doc e : element) :
  find t doc = Some e <->
  exists before rest,
    children doc = before ++ e :: rest /\ tag e = t /\
    Forall (fun c => tag c <> t) before.
Proof.
  unfold find, child_step. generalize (children doc) as cs.
  induction cs as [|c cs IH]; cbn [List.filter].
  - split; [discriminate|]. intros (before & rest & H & _). now destruct before.
  - destruct (String.eqb_spec (tag c) t) as [Heq|Hne]; cbn [head].
    + split.
      * intros [= ->]. exists [], cs. auto.
      * intros (before & rest & H & Ht & Hb). destruct before as [|b before].
        -- now injection H as ->.
        -- injection H as -> _. inversion Hb; congruence.
    + rewrite IH. split.
      * intros (before & rest & -> & Ht & Hb). exists (c :: before), rest. auto.
      * intros (before & rest & H & Ht & Hb). destruct before as [|b before].
        -- injection H as -> _. congruence.
        -- injection H as _ ->. inversion Hb. eauto.
Qed.

(** The statements after the parse tell the answers apart, by the first
    child of the root with the tag error. *)
Lemma check_login_document_cases (doc : element) :
  (forall error, find "error" doc = Some error ->
     get error "cause" = Some "googleauthrequired" ->
     check_login_document doc = Raise (MfaRequiredException "Need MFA for this login")) /\
  (forall error, find "error" doc = Some error ->
     get error "cause" <> Some "googleauthrequired" ->
     check_login_document doc =
     Raise (ValueError ("Could not login to lastpass: " +:+
                        format_option (get error "message")))) /\
  (find "error" doc = None -> check_login_document doc = Ok tt).
Proof.
  unfold check_login_document. repeat split.
  - intros error -> H. now rewrite bool_decide_eq_true_2.
  - intros error -> H. now rewrite bool_decide_eq_false_2.
  - now intros ->.
Qed.

(** What the three stages send. *)
Lemma lastpass_iterations_sent (server : string) (username : bytes) (w : @world Session) :
  sent (snd (lastpass_iterations send py_int server username w)) =
  sent w ++ [iterations_request server username].
Proof.
  rewrite lastpass_iterations_run.
  now destruct (send (session w) _) as [[resp|e] s].
Qed.

Lemma get_saml_token_sent (server cfg : string) (w : @world Session) :
  sent (snd (get_saml_token send unescape b64decode server cfg w)) =
  sent w ++ [sso_request server cfg].
Proof.
  unfold get_saml_token, and_then, session_get, session_request.
  fold (sso_request server cfg).
  destruct (send (session w) _) as [[resp|e] s]; [|reflexivity].
  destruct (String.eqb _ _); [reflexivity|].
  now destruct (_ !! _).
Qed.

Lemma lastpass_login_sent (d : division) (server : string) (username password : bytes)
  (otp : option string) (w : @world Session) :
  let out := sent (snd (lastpass_login send py_int fromstring d server username
                          password otp w)) in
  out = sent w ++ [iterations_request server username] \/
  exists hash iterations,
    out = sent w ++ [iterations_request server username;
                     login_request server username hash iterations otp].
Proof.
  intros out. subst out. left. destruct d.
  pose proof (lastpass_iterations_sent server username w) as Hs.
  destruct (lastpass_iterations send py_int server username w) as [[n|e] w1] eqn:Hit.
  - now rewrite (lastpass_login_true_division server username password otp w w1 n Hit).
  - unfold lastpass_login, and_then. now rewrite Hit.
Qed.

(** C3. In the language of the module the answer of the login endpoint is
    never read: once the discovery has given an iteration count,
    [lastpass_login] raises the [TypeError] of the hash and has sent the
    discovery request only.  Whatever the login endpoint would answer, the
    call raises neither [MfaRequiredException] nor [ValueError], and it
    does not return. *)
Theorem lastpass_login_reads_no_answer (server : string) (username password : bytes)
  (otp : option string) (w w1 : @world Session) (iterations : Z) :
  lastpass_iterations send py_int server username w = (Ok iterations, w1) ->
  let run := lastpass_login send py_int fromstring TrueDivision server username
               password otp w in
  run = (Raise TypeError, w1) /\
  sent (snd run) = sent w ++ [iterations_request server username] /\
  fst run <> Ok tt /\
  (forall m, fst run <> Raise (MfaRequiredException m)) /\
  (forall m, fst run <> Raise (ValueError m)).
Proof.
  intros Hit run. subst run.
  pose proof (lastpass_iterations_sent server username w) as Hs.
  rewrite Hit in Hs. cbn [snd] in Hs.
  rewrite (lastpass_login_true_division server username password otp w w1 iterations Hit).
  cbn [fst snd]. split; [reflexivity|]. split; [exact Hs|].
  split; [discriminate|]. split; intros m; [unfold MfaRequiredException|]; discriminate.
Qed.

(** C10, amended. A request is sent with certificate verification on
    exactly when the literal https://lastpass.com occurs in the server
    string, wherever in the string and whatever the host it names: this is
    the flag of the one request of the discovery, of each request of the
    login, and of the one request for the launch page; so a server string
    without the literal has every request sent with verification off. *)
Theorem verify_iff_lastpass_literal (d : division) (server cfg : string)
  (username password : bytes) (otp : option string) (w : @world Session) :
  (should_verify server = true <->
   exists pre post, server = pre +:+ "https://lastpass.com" +:+ post) /\
  (exists r, sent (snd (lastpass_iterations send py_int server username w)) =
             sent w ++ [r] /\ req_verify r = should_verify server) /\
  (exists rs, sent (snd (lastpass_login send py_int fromstring d server username
                           password otp w)) = sent w ++ rs /\
              rs <> [] /\
              Forall (fun r => req_verify r = should_verify server) rs) /\
  (exists r, sent (snd (get_saml_token send unescape b64decode server cfg w)) =
             sent w ++ [r] /\ req_verify r = should_verify server) /\
  ((forall pre post, server <> pre +:+ "https://lastpass.com" +:+ post) ->
   should_verify server = false).
Proof.
  repeat split.
  - apply contains_spec.
  - apply contains_spec.
  - eexists. split; [apply lastpass_iterations_sent | reflexivity].
  - destruct (lastpass_login_sent d server username password otp w)
      as [H | (hash & n & H)]; eexists; (split; [exact H|]);
      (split; [discriminate|]); repeat constructor.
  - eexists. split; [apply get_saml_token_sent | reflexivity].
  - intros H. destruct (should_verify server) eqn:E; [|reflexivity].
    apply contains_spec in E as (pre & post & E). now apply H in E.
Qed.

End Stages.

Lemma verify_iff_lastpass_literal_witness :
  (forall pre post, "http://127.0.0.1:8080" <> pre +:+ "https://lastpass.com" +:+ post) /\
  should_verify "http://127.0.0.1:8080" = false.
Proof.
  assert (H : forall pre post,
             "http://127.0.0.1:8080" <> pre +:+ "https://lastpass.com" +:+ post).
  { intros pre post E.
    assert (C : contains "https://lastpass.com" "http://127.0.0.1:8080" = true)
      by (apply contains_spec; eauto).
    vm_compute in C. discriminate C. }
  split; [exact H|].
  exact (proj2 (proj2 (proj2 (proj2
    (verify_iff_lastpass_literal (stateless (answers (ok_response "1") (ok_response "1")))
       int_decimal (fromstring_table []) (fun s => s) (fun s => Ok s)
       TrueDivision "http://127.0.0.1:8080" "42" example_user example_password
       None fresh)))) H).
Defined.

(** C4 as stated fails: status 200 with a body that is no integer raises
    [ValueError]; the default is not used. *)
Lemma lastpass_iterations_unparsable_body :
  fst (lastpass_iterations
         (stateless (answers (ok_response "<html>busy</html>") (ok_response EmptyString)))
         int_decimal "https://lastpass.com" example_user fresh) =
  Raise (ValueError "invalid literal for int() with base 10").
Proof. vm_compute. reflexivity. Qed.

Lemma lastpass_iterations_outcome_witness :
  let server := stateless (answers {| status_code := 503; response_text := "busy" |}
                                   (ok_response mfa_text)) in
  503 <> 200 /\
  lastpass_iterations server int_decimal "https://lastpass.com" example_user fresh =
    (Ok 5000, after fresh tt (iterations_request "https://lastpass.com" example_user)).
Proof.
  intros server. split; [discriminate|].
  destruct (lastpass_iterations_outcome server int_decimal "https://lastpass.com"
              example_user fresh {| status_code := 503; response_text := "busy" |} tt
              eq_refl) as (Hdefault & _).
  apply Hdefault. cbn. discriminate.
Defined.

(** C10 as stated fails: a server string that names another host and
    holds the literal has its requests sent with verification on. *)
Lemma verification_on_for_another_host :
  should_verify "https://lastpass.com.evil.org" = true /\
  map (fun r => (req_url r, req_verify r))
      (sent (snd (lastpass_iterations
                    (stateless (answers (ok_response "1") (ok_response "1")))
                    int_decimal "https://lastpass.com.evil.org" example_user fresh))) =
    [("https://lastpass.com.evil.org/iterations.php", true)] /\
  map (fun r => (req_url r, req_verify r))
      (sent (snd (get_saml_token
                    (stateless (answers (ok_response "1") (ok_response "1")))
                    (fun s => s) (fun s => Ok s)
                    "https://lastpass.com.evil.org" "42" fresh))) =
    [("https://lastpass.com.evil.org/saml/launch/cfg/42", true)].
Proof.
  split; [vm_compute; reflexivity|]. split; vm_compute; reflexivity.
Qed.

Lemma lastpass_login_reads_no_answer_witness :
  let server := stateless (answers (ok_response "1") (ok_response mfa_text)) in
  let run := lastpass_login server int_decimal (fromstring_table login_documents)
               TrueDivision "https://lastpass.com" example_user example_password
               None fresh in
  lastpass_iterations server int_decimal "https://lastpass.com" example_user fresh =
    (Ok 1, after fresh tt (iterations_request "https://lastpass.com" example_user)) /\
  fst run = Raise TypeError /\
  sent (snd run) = [iterations_request "https://lastpass.com" example_user].
Proof.
  intros server run.
  assert (Hit : lastpass_iterations server int_decimal "https://lastpass.com"
                  example_user fresh =
                (Ok 1, after fresh tt
                         (iterations_request "https://lastpass.com" example_user)))
    by (vm_compute; reflexivity).
  split; [exact Hit|].
  destruct (lastpass_login_reads_no_answer server int_decimal
              (fromstring_table login_documents) "https://lastpass.com" example_user
              example_password None fresh _ 1 Hit) as (Hrun & Hsent & _).
  split; [unfold run; now rewrite Hrun | exact Hsent].
Defined.

(** ** Roles of an assertion *)

Lemma split_not_nil (sep : ascii) (n : nat) (s : string) : split sep n s <> [].
Proof.
  revert n. induction s as [|c s IH]; intros n; cbn [split]; [discriminate|].
  destruct n as [|n]; [discriminate|].
  destruct (Ascii.eqb c sep); [discriminate|].
  specialize (IH (Datatypes.S n)). now destruct (split sep (Datatypes.S n) s).
Qed.

Lemma length_split (sep : ascii) (n : nat) (s : string) :
  (1 <= length (split sep n s) <= n + 1)%nat.
Proof.
  revert n. induction s as [|c s IH]; intros n; cbn [split]; [cbn; lia|].
  destruct n as [|n]; [cbn; lia|].
  destruct (Ascii.eqb c sep).
  - specialize (IH n). cbn [length]. lia.
  - specialize (IH (Datatypes.S n)).
    destruct (split sep (Datatypes.S n) s); cbn [length] in *; lia.
Qed.

(** Nothing is dropped: the components joined by the separator are the
    text. *)
Lemma concat_split (sep : ascii) (n : nat) (s : string) :
  String.concat (String sep EmptyString) (split sep n s) = s.
Proof.
  revert n. induction s as [|c s IH]; intros n; cbn [split]; [reflexivity|].
  destruct n as [|n]; [reflexivity|].
  destruct (Ascii.eqb_spec c sep) as [->|Hne].
  - specialize (IH n). pose proof (split_not_nil sep n s) as Hnil.
    destruct (split sep n s) as [|h t]; [congruence|].
    cbn [String.concat]. cbn [String.concat] in IH. now rewrite IH.
  - specialize (IH (Datatypes.S n)). pose proof (split_not_nil sep (Datatypes.S n) s) as Hnil.
    destruct (split sep (Datatypes.S n) s) as [|h t]; [congruence|].
    destruct t as [|h' t]; cbn [String.concat] in *; now rewrite <- IH.
Qed.

Lemma split_no_separator (sep : ascii) (n : nat) (s : string) :
  has_char sep s = false -> split sep n s = [s].
Proof.
  revert n. induction s as [|c s IH]; intros n H; cbn [split]; [reflexivity|].
  destruct n as [|n]; [reflexivity|].
  cbn [has_char] in H. apply orb_false_iff in H as [Hc Hs].
  now rewrite Hc, IH.
Qed.

Lemma split_first (sep : ascii) (n : nat) (r rest : string) :
  has_char sep r = false ->
  split sep (Datatypes.S n) (r +:+ String sep rest) = r :: split sep n rest.
Proof.
  induction r as [|c r IH]; intros H.
  - rewrite append_nil_l. cbn [split]. now rewrite Ascii.eqb_refl.
  - cbn [has_char] in H. apply orb_false_iff in H as [Hc Hr].
    rewrite append_cons. cbn [split]. now rewrite Hc, IH.
Qed.

(** The entry of a value [r,p]: the pair. *)
Lemma split_pair (r p : string) :
  has_char "," r = false -> has_char "," p = false ->
  split "," 2 (r +:+ "," +:+ p) = [r; p].
Proof.
  intros Hr Hp. change ("," +:+ p) with (String "," p).
  now rewrite split_first, split_no_separator.
Qed.

(** The entry of a value [r,p,rest]: three components, the third is all
    that follows the second comma. *)
Lemma split_triple (r p rest : string) :
  has_char "," r = false -> has_char "," p = false ->
  split "," 2 (r +:+ "," +:+ p +:+ "," +:+ rest) = [r; p; rest].
Proof.
  intros Hr Hp. change ("," +:+ p +:+ "," +:+ rest) with (String "," (p +:+ String "," rest)).
  rewrite !split_first by assumption. now destruct rest.
Qed.

Lemma comprehension_Forall2 {A B : Type} (f : A -> result B) (l : list A) (bs : list B) :
  comprehension f l = Ok bs <-> Forall2 (fun a b => f a = Ok b) l bs.
Proof.
  revert bs. induction l as [|a l IH]; intros bs; cbn [comprehension].
  - split; [intros [= <-]; constructor | intros H; now inversion H].
  - destruct (f a) as [b|e] eqn:Ea; cbn [bind].
    + destruct (comprehension f l) as [bs'|e] eqn:El; cbn [bind].
      * split.
        -- intros [= <-]. constructor; [exact Ea | now apply IH].
        -- intros H. inversion H as [|? b' ? bs'' Hb Hbs]; subst.
           apply IH in Hbs. congruence.
      * split; [discriminate|]. intros H. inversion H as [|? b' ? bs'' Hb Hbs]; subst.
        apply IH in Hbs. discriminate.
    + split; [discriminate|]. intros H. inversion H. congruence.
Qed.

(** The nodes the path selects: the children tagged AttributeValue of the
    descendants tagged Attribute whose Name is the role attribute. *)
Lemma findall_role_values_spec (doc v : element) :
  In v (findall_role_values doc) <->
  exists a,
    In a (flat_map iter (children doc)) /\ tag a = saml "Attribute" /\
    get a "Name" = Some role_attrib /\
    In v (children a) /\ tag v = saml "AttributeValue".
Proof.
  unfold findall_role_values, descendants, child_step.
  rewrite in_flat_map. split.
  - intros (a & Ha & Hv). apply filter_In in Ha as [Ha Hname].
    apply filter_In in Ha as [Ha Htag]. apply filter_In in Hv as [Hv Hvt].
    apply String.eqb_eq in Htag, Hvt. apply bool_decide_eq_true in Hname. eauto 10.
  - intros (a & Ha & Htag & Hname & Hv & Hvt). exists a. split.
    + apply filter_In. split; [|now apply bool_decide_eq_true].
      apply filter_In. split; [exact Ha | now apply String.eqb_eq].
    + apply filter_In. split; [exact Hv | now apply String.eqb_eq].
Qed.

(** A value with more than one comma gives an entry of three components:
    what follows the second comma is kept as the third, so the entry is
    not the pair the docstring promises. *)
Lemma get_saml_aws_roles_third_component :
  get_saml_aws_roles (fromstring_table assertions) (assertion_text [role_C]) =
  Ok [["arn:aws:iam::111:role/C"; "arn:aws:iam::111:saml-provider/IdP"; "3600,eu-west-1"]].
Proof. vm_compute. reflexivity. Qed.

(** C5. For an assertion that parses and whose selected nodes all have
    text, [get_saml_aws_roles] returns one entry per selected node, in the
    order of the nodes; the entry of a node is its text split at the first
    two commas: one to three components which, joined by commas, are the
    text.  It is the pair of the two ARNs when the text has exactly one
    comma; when there are more, the entry is no pair: what follows the
    second comma is its third component. *)
Theorem get_saml_aws_roles_entries (fromstring : string -> result element)
  (assertion : string) (doc : element) :
  fromstring assertion = Ok doc ->
  Forall (fun a => text a <> None) (findall_role_values doc) ->
  exists roles,
    get_saml_aws_roles fromstring assertion = Ok roles /\
    Forall2 (fun a role =>
               exists t,
                 text a = Some t /\ role = split "," 2 t /\
                 String.concat "," role = t /\
                 (1 <= length role <= 3)%nat /\
                 (forall r p, has_char "," r = false -> has_char "," p = false ->
                    t = r +:+ "," +:+ p -> role = [r; p]) /\
                 (forall r p rest, has_char "," r = false -> has_char "," p = false ->
                    t = r +:+ "," +:+ p +:+ "," +:+ rest -> role = [r; p; rest]))
            (findall_role_values doc) roles.
Proof.
  intros Hparse Htext. unfold get_saml_aws_roles. rewrite Hparse. cbn [bind].
  induction (findall_role_values doc) as [|a l IH].
  - exists []. split; [reflexivity | constructor].
  - inversion Htext as [|? ? Ha Hl]; subst.
    destruct (IH Hl) as (roles & Hroles & Hall).
    destruct (text a) as [t|] eqn:Et; [|congruence].
    exists (split "," 2 t :: roles). split.
    + cbn [comprehension]. unfold role_of at 1. rewrite Et. cbn [bind].
      now rewrite Hroles.
    + constructor; [|exact Hall]. exists t.
      split; [exact Et|]. split; [reflexivity|].
      split; [apply concat_split|]. split; [apply length_split|].
      split.
      * intros r p Hr Hp ->. now apply split_pair.
      * intros r p rest Hr Hp ->. now apply split_triple.
Qed.

Lemma get_saml_aws_roles_entries_witness :
  fromstring_table assertions (assertion_text [role_A; role_B]) =
    Ok (assertion_doc [role_A; role_B]) /\
  Forall (fun a => text a <> None) (findall_role_values (assertion_doc [role_A; role_B])) /\
  get_saml_aws_roles (fromstring_table assertions) (assertion_text [role_A; role_B]) =
  Ok [["arn:aws:iam::111:role/A"; "arn:aws:iam::111:saml-provider/IdP"];
      ["arn:aws:iam::111:role/B"; "arn:aws:iam::111:saml-provider/IdP"]].
Proof.
  assert (Hparse : fromstring_table assertions (assertion_text [role_A; role_B]) =
                   Ok (assertion_doc [role_A; role_B])) by (vm_compute; reflexivity).
  assert (Htext : Forall (fun a => text a <> None)
                    (findall_role_values (assertion_doc [role_A; role_B])))
    by (vm_compute; repeat constructor; discriminate).
  split; [exact Hparse|]. split; [exact Htext|].
  destruct (get_saml_aws_roles_entries (fromstring_table assertions)
              (assertion_text [role_A; role_B]) (assertion_doc [role_A; role_B])
              Hparse Htext) as (roles & -> & Hall).
  f_equal. vm_compute in Hall.
  inversion Hall as [|a ra l rl (t & Ht & -> & _) Hrest]; subst.
  inversion Hrest as [|b rb l' rl' (t' & Ht' & -> & _) Hnil]; subst.
  inversion Hnil; subst.
  injection Ht as <-. injection Ht' as <-. reflexivity.
Defined.

(** A selected node without text makes the call raise. *)
Lemma get_saml_aws_roles_no_text (fromstring : string -> result element)
  (assertion : string) (doc : element) :
  fromstring assertion = Ok doc ->
  Exists (fun a => text a = None) (findall_role_values doc) ->
  get_saml_aws_roles fromstring assertion = Raise AttributeError.
Proof.
  intros Hparse Hex. unfold get_saml_aws_roles. rewrite Hparse. cbn [bind].
  induction (findall_role_values doc) as [|a l IH]; [inversion Hex|].
  cbn [comprehension]. unfold role_of at 1.
  destruct (text a) as [t|] eqn:Et; [|reflexivity]. cbn [bind].
  inversion Hex as [? ? Ha | ? ? Hl]; subst; [congruence|].
  now rewrite (IH Hl).
Qed.

(** ** The role prompt *)

Section PromptProperties.

Variable py_int : string -> option Z.

(** One role: it is returned, nothing is written and nothing is read. *)
Lemma prompt_for_role_single (role : list string) (c : console) :
  prompt_for_role py_int [role] c = (Ok role, c).
Proof. reflexivity. Qed.

Lemma print_roles_ok (roles : list (list string)) (count : Z) (c : console) :
  Forall (fun role => role <> []) roles ->
  exists c', print_roles roles count c = (Ok tt, c') /\ stdin c' = stdin c.
Proof.
  revert count c. induction roles as [|role roles IH]; intros count c Hall.
  - now exists c.
  - inversion Hall as [|? ? Hrole Hroles]; subst.
    destruct role as [|name role]; [congruence|].
    cbn [print_roles]. unfold getitem. cbn [Z.ltb Z.to_nat nth_error Z.compare].
    destruct (IH (count + 1) (print ("  " +:+ decimal count +:+ ") " +:+ name) c) Hroles)
      as (c' & Hc' & Hin).
    exists c'. split; [exact Hc' | exact Hin].
Qed.

(** The loop leaves with a choice between 1 and the number of roles plus
    one. *)
Lemma choice_loop_window (n choice : Z) (lines out : list string) (k : Z) (c : console) :
  choice_loop py_int n choice lines out = (Ok k, c) -> 1 <= k <= n + 1.
Proof.
  revert choice out. induction lines as [|line lines IH]; intros choice out;
    cbn [choice_loop];
    destruct ((choice <? 1) || (choice >? n + 1)) eqn:E.
  - discriminate.
  - intros [= <- _]. apply orb_false_iff in E as [E1 E2]. lia.
  - apply IH.
  - intros [= <- _]. apply orb_false_iff in E as [E1 E2]. lia.
Qed.

(** A line that [int] refuses, or a number outside the window, is passed
    over and the prompt is written again. *)
Lemma choice_loop_again (n : Z) (line : string) (lines out : list string) :
  match py_int line with
  | Some z => z < 1 \/ n + 1 < z
  | None => True
  end ->
  choice_loop py_int n 0 (line :: lines) out =
  choice_loop py_int n 0 lines (out ++ ["Choice: "]).
Proof.
  intros H. cbn [choice_loop]. cbn [Z.ltb Z.compare orb].
  destruct (py_int line) as [z|]; [|reflexivity].
  destruct lines as [|l lines]; cbn [choice_loop];
    replace ((z <? 1) || (z >? n + 1)) with true
      by (symmetry; apply orb_true_iff; lia);
    reflexivity.
Qed.

(** A number in the window ends the loop. *)
Lemma choice_loop_accept (n z : Z) (line : string) (lines out : list string) :
  py_int line = Some z -> 1 <= z <= n + 1 ->
  choice_loop py_int n 0 (line :: lines) out =
  (Ok z, {| stdin := lines; stdout := out ++ ["Choice: "] |}).
Proof.
  intros Hz Hw. cbn [choice_loop]. cbn [Z.ltb Z.compare orb]. rewrite Hz.
  destruct lines as [|l lines]; cbn [choice_loop];
    replace ((z <? 1) || (z >? n + 1)) with false
      by (symmetry; apply orb_false_iff; lia);
    reflexivity.
Qed.

Lemma prompt_for_role_choice (roles : list (list string)) (line : string)
  (lines out : list string) (z : Z) :
  length roles <> 1%nat ->
  Forall (fun role => role <> []) roles ->
  py_int line = Some z -> 1 <= z <= Z.of_nat (length roles) + 1 ->
  fst (prompt_for_role py_int roles {| stdin := line :: lines; stdout := out |}) =
  getitem roles (z - 1).
Proof.
  intros Hlen Hall Hz Hw. unfold prompt_for_role.
  apply Nat.eqb_neq in Hlen. rewrite Hlen.
  destruct (print_roles_ok roles 1
              (print "Please select a role:" {| stdin := line :: lines; stdout := out |})
              Hall) as (c' & -> & Hin).
  cbn [stdin print] in Hin. rewrite Hin.
  now rewrite (choice_loop_accept _ z) by assumption.
Qed.

(** A choice between 1 and the number of roles returns that role. *)
Lemma prompt_for_role_in_range (roles : list (list string)) (line : string)
  (lines out : list string) (z : Z) (role : list string) :
  length roles <> 1%nat ->
  Forall (fun role => role <> []) roles ->
  py_int line = Some z ->
  nth_error roles (Z.to_nat (z - 1)) = Some role -> 1 <= z ->
  fst (prompt_for_role py_int roles {| stdin := line :: lines; stdout := out |}) = Ok role.
Proof.
  intros Hlen Hall Hz Hnth Hpos.
  assert (Hlt : (Z.to_nat (z - 1) < length roles)%nat)
    by (apply nth_error_Some; congruence).
  rewrite (prompt_for_role_choice roles line lines out z) by (assumption || lia).
  assert (E : (z - 1 <? 0) = false) by (apply Z.ltb_ge; lia).
  unfold getitem. cbv zeta. rewrite E. cbv iota. now rewrite E, Hnth.
Qed.

(** C6. The loop is left when the choice is at most the number of roles
    plus one: with two or more roles (or none), the entry one past the last
    role is accepted instead of being asked again, and the lookup of the
    role raises [IndexError]. *)
Theorem prompt_for_role_accepts_one_past (roles : list (list string)) (line : string)
  (lines out : list string) :
  length roles <> 1%nat ->
  Forall (fun role => role <> []) roles ->
  py_int line = Some (Z.of_nat (length roles) + 1) ->
  fst (prompt_for_role py_int roles {| stdin := line :: lines; stdout := out |}) =
  Raise IndexError.
Proof.
  intros Hlen Hall Hz.
  rewrite (prompt_for_role_choice roles line lines out _ Hlen Hall Hz) by lia.
  assert (E : (Z.of_nat (length roles) <? 0) = false) by (apply Z.ltb_ge; lia).
  replace (Z.of_nat (length roles) + 1 - 1) with (Z.of_nat (length roles)) by lia.
  unfold getitem. cbv zeta. rewrite E. cbv iota. rewrite E, Nat2Z.id.
  now replace (nth_error roles (length roles)) with (@None (list string))
    by (symmetry; apply nth_error_None; lia).
Qed.

End PromptProperties.

Lemma prompt_for_role_accepts_one_past_witness :
  length example_roles <> 1%nat /\
  Forall (fun role => role <> []) example_roles /\
  int_decimal "3" = Some (Z.of_nat (length example_roles) + 1) /\
  fst (prompt_for_role int_decimal example_roles {| stdin := ["3"; "1"]; stdout := [] |}) =
    Raise IndexError.
Proof.
  assert (Hlen : length example_roles <> 1%nat) by (vm_compute; discriminate).
  assert (Hall : Forall (fun role : list string => role <> []) example_roles)
    by (vm_compute; repeat constructor; discriminate).
  assert (Hint : int_decimal "3" = Some (Z.of_nat (length example_roles) + 1))
    by (vm_compute; reflexivity).
  split; [exact Hlen|]. split; [exact Hall|]. split; [exact Hint|].
  exact (prompt_for_role_accepts_one_past int_decimal example_roles "3" ["1"] []
           Hlen Hall Hint).
Defined.

(** With two roles listed and the entries 3 and 1 typed, the call raises
    after the first entry; the second is never read. *)
Example prompt_for_role_two_roles_choice_3 :
  fst (prompt_for_role int_decimal example_roles {| stdin := ["3"; "1"]; stdout := [] |}) =
    Raise IndexError /\
  stdin (snd (prompt_for_role int_decimal example_roles
                {| stdin := ["3"; "1"]; stdout := [] |})) = ["1"].
Proof. split; vm_compute; reflexivity. Qed.

(** ** The matchers *)

Lemma drop_append (p s : string) : drop (String.length p) (p +:+ s) = s.
Proof. induction p as [|c p IH]; [reflexivity|]. now rewrite append_cons. Qed.

Lemma strip_prefix_spec (p s rest : string) :
  strip_prefix p s = Some rest <-> s = p +:+ rest.
Proof.
  unfold strip_prefix. destruct (String.prefix p s) eqn:E.
  - apply prefix_spec in E as [r ->]. rewrite drop_append. split.
    + now intros [= ->].
    + intros H. apply String.app_inj in H. now subst.
  - split; [discriminate|]. intros ->.
    assert (String.prefix p (p +:+ rest) = true) by (apply prefix_spec; eauto).
    congruence.
Qed.

Lemma until_quote_spec (s g rest : string) :
  until_quote s = Some (g, rest) <->
  s = g +:+ dquote +:+ rest /\ has_char dq g = false.
Proof.
  revert g. induction s as [|c s IH]; intros g; cbn [until_quote].
  - split; [discriminate|]. intros [H _]. now destruct g.
  - destruct (Ascii.eqb_spec c dq) as [->|Hne].
    + split.
      * intros [= <- <-]. split; reflexivity.
      * intros [H Hg]. destruct g as [|c' g].
        -- now injection H as ->.
        -- rewrite append_cons in H. injection H as <- _. cbn [has_char] in Hg.
           now rewrite Ascii.eqb_refl in Hg.
    + destruct (until_quote s) as [[g' rest']|] eqn:E.
      * split.
        -- intros [= <- <-]. specialize (IH g'). destruct IH as [IH _].
           destruct (IH eq_refl) as [-> Hg]. split; [reflexivity|].
           cbn [has_char]. rewrite Hg. now apply Ascii.eqb_neq in Hne as ->.
        -- intros [H Hg]. destruct g as [|c' g].
           ++ injection H as -> _. congruence.
           ++ rewrite append_cons in H. injection H as <- H. cbn [has_char] in Hg.
              apply orb_false_iff in Hg as [_ Hg].
              destruct (IH g) as [_ IH']. specialize (IH' (conj H Hg)). congruence.
      * split; [discriminate|]. intros [H Hg]. destruct g as [|c' g].
        -- injection H as -> _. congruence.
        -- rewrite append_cons in H. injection H as <- H. cbn [has_char] in Hg.
           apply orb_false_iff in Hg as [_ Hg].
           destruct (IH g) as [_ IH']. specialize (IH' (conj H Hg)). discriminate.
Qed.

Lemma quoted_spec (lit s g rest : string) :
  quoted lit s = Some (g, rest) <->
  s = (lit +:+ dquote) +:+ g +:+ dquote +:+ rest /\ has_char dq g = false.
Proof.
  unfold quoted. destruct (strip_prefix (lit +:+ dquote) s) as [s1|] eqn:E.
  - apply strip_prefix_spec in E as ->. rewrite until_quote_spec. split.
    + now intros [-> H].
    + intros [H Hg]. apply String.app_inj in H. auto.
  - split; [discriminate|]. intros [-> _].
    assert (H : strip_prefix (lit +:+ dquote) ((lit +:+ dquote) +:+ g +:+ dquote +:+ rest)
                = Some (g +:+ dquote +:+ rest)) by now apply strip_prefix_spec.
    congruence.
Qed.

(** A match of the field pattern spans its text; its groups hold no double
    quote; the optional group is empty or spans the id attribute. *)
Lemma field_at_sound (s rest : string) (m : field_match) :
  field_at s = Some (m, rest) ->
  s = field_text m +:+ rest /\
  has_char dq (group1 m) = false /\ has_char dq (group3 m) = false /\
  has_char dq (group4 m) = false /\
  (group2 m = EmptyString /\ group3 m = EmptyString \/
   group2 m = "id=" +:+ dquote +:+ group3 m +:+ dquote +:+ " ").
Proof.
  unfold field_at.
  destruct (quoted "name=" s) as [[g1 s1]|] eqn:E1; [|discriminate].
  apply quoted_spec in E1 as [-> Hg1].
  destruct (strip_prefix " " s1) as [s2|] eqn:E2; [|discriminate].
  apply strip_prefix_spec in E2 as ->.
  assert (Hwithout :
    match quoted "value=" s2 with
    | Some (g4, rest0) =>
        Some ({| group1 := g1; group2 := EmptyString; group3 := EmptyString;
                 group4 := g4 |}, rest0)
    | None => None
    end = Some (m, rest) ->
    (("name=" +:+ dquote) +:+ g1 +:+ dquote +:+ " " +:+ s2) = field_text m +:+ rest /\
    has_char dq (group1 m) = false /\ has_char dq (group3 m) = false /\
    has_char dq (group4 m) = false /\
    (group2 m = EmptyString /\ group3 m = EmptyString \/
     group2 m = "id=" +:+ dquote +:+ group3 m +:+ dquote +:+ " ")).
  { destruct (quoted "value=" s2) as [[g4 r]|] eqn:E4; [|discriminate].
    apply quoted_spec in E4 as [-> Hg4]. intros [= <- <-].
    unfold field_text. cbn [group1 group2 group3 group4].
    repeat rewrite ?append_assoc, ?append_nil_l, ?append_cons. auto 10. }
  destruct (quoted "id=" s2) as [[g3 s3]|] eqn:E3; [|exact Hwithout].
  destruct (strip_prefix " " s3) as [s4|] eqn:E3'; [|exact Hwithout].
  destruct (quoted "value=" s4) as [[g4 r]|] eqn:E4; [|exact Hwithout].
  apply quoted_spec in E3 as [-> Hg3]. apply strip_prefix_spec in E3' as ->.
  apply quoted_spec in E4 as [-> Hg4]. intros [= <- <-].
  unfold field_text. cbn [group1 group2 group3 group4].
  repeat rewrite ?append_assoc, ?append_nil_l, ?append_cons. auto 10.
Qed.

(** Every pair written [name=QUOTED value=QUOTED] is matched, and so is
    every pair with an id attribute between the two. *)
Lemma field_at_complete (g1 g4 rest : string) :
  has_char dq g1 = false -> has_char dq g4 = false ->
  let m := {| group1 := g1; group2 := EmptyString; group3 := EmptyString;
              group4 := g4 |} in
  field_at (field_text m +:+ rest) = Some (m, rest).
Proof.
  intros H1 H4 m. unfold field_at, field_text. cbn [group1 group2 group4 m].
  replace (quoted "name=" _) with
    (Some (g1, " " +:+ "value=" +:+ dquote +:+ g4 +:+ dquote +:+ rest)).
  2:{ symmetry. apply quoted_spec. split; [|exact H1].
      repeat rewrite ?append_assoc, ?append_nil_l, ?append_cons. reflexivity. }
  replace (strip_prefix " " _) with (Some ("value=" +:+ dquote +:+ g4 +:+ dquote +:+ rest))
    by (symmetry; now apply strip_prefix_spec).
  replace (quoted "value=" _) with (Some (g4, rest)).
  2:{ symmetry. apply quoted_spec. split; [|exact H4].
      repeat rewrite ?append_assoc, ?append_nil_l, ?append_cons. reflexivity. }
  reflexivity.
Qed.

Lemma field_at_complete_id (g1 g3 g4 rest : string) :
  has_char dq g1 = false -> has_char dq g3 = false -> has_char dq g4 = false ->
  let m := {| group1 := g1; group2 := "id=" +:+ dquote +:+ g3 +:+ dquote +:+ " ";
              group3 := g3; group4 := g4 |} in
  field_at (field_text m +:+ rest) = Some (m, rest).
Proof.
  intros H1 H3 H4 m. unfold field_at, field_text. cbn [group1 group2 group4 m].
  replace (quoted "name=" _) with
    (Some (g1, " " +:+ "id=" +:+ dquote +:+ g3 +:+ dquote +:+ " " +:+
               "value=" +:+ dquote +:+ g4 +:+ dquote +:+ rest)).
  2:{ symmetry. apply quoted_spec. split; [|exact H1].
      repeat rewrite ?append_assoc, ?append_nil_l, ?append_cons. reflexivity. }
  replace (strip_prefix " " _) with
    (Some ("id=" +:+ dquote +:+ g3 +:+ dquote +:+ " " +:+
           "value=" +:+ dquote +:+ g4 +:+ dquote +:+ rest))
    by (symmetry; now apply strip_prefix_spec).
  replace (quoted "id=" _) with
    (Some (g3, " " +:+ "value=" +:+ dquote +:+ g4 +:+ dquote +:+ rest)).
  2:{ symmetry. apply quoted_spec. split; [|exact H3].
      repeat rewrite ?append_assoc, ?append_nil_l, ?append_cons. reflexivity. }
  replace (strip_prefix " " _) with (Some ("value=" +:+ dquote +:+ g4 +:+ dquote +:+ rest))
    by (symmetry; now apply strip_prefix_spec).
  replace (quoted "value=" _) with (Some (g4, rest)).
  2:{ symmetry. apply quoted_spec. split; [|exact H4].
      repeat rewrite ?append_assoc, ?append_nil_l, ?append_cons. reflexivity. }
  reflexivity.
Qed.

(** [findall]: skipping is dropping. *)
Lemma findall_fields_from_drop (k : nat) (s : string) :
  findall_fields_from k s = findall_fields_from 0 (drop k s).
Proof.
  revert k. induction s as [|c s IH]; intros k.
  - now destruct k.
  - destruct k as [|k]; [reflexivity|]. cbn [findall_fields_from drop]. apply IH.
Qed.

(** After a match at the start of the page, the scan resumes behind it. *)
Lemma findall_fields_here (s rest : string) (m : field_match) :
  field_at s = Some (m, rest) -> findall_fields s = m :: findall_fields rest.
Proof.
  intros H. pose proof (field_at_sound s rest m H) as (Hs & _).
  unfold findall_fields. destruct s as [|c s'].
  - unfold field_text in Hs. rewrite !append_cons in Hs. discriminate.
  - cbn [findall_fields_from]. rewrite H. f_equal.
    rewrite findall_fields_from_drop. f_equal.
    assert (Hlen : String.length (String c s') =
                   (String.length (field_text m) + String.length rest)%nat)
      by now rewrite Hs, length_append.
    assert (Hpos : (1 <= String.length (field_text m))%nat).
    { unfold field_text. rewrite !append_cons. cbn [String.length]. lia. }
    replace (String.length (String c s') - String.length rest - 1)%nat
      with (String.length (field_text m) - 1)%nat by lia.
    destruct (field_text m) as [|c' t] eqn:Et; [cbn in Hpos; lia|].
    rewrite append_cons in Hs. injection Hs as _ ->.
    cbn [String.length]. rewrite Nat.sub_succ, Nat.sub_0_r. apply drop_append.
Qed.

(** Where the page has no match at its start, the scan moves on by one
    character. *)
Lemma findall_fields_next (c : ascii) (s : string) :
  field_at (String c s) = None -> findall_fields (String c s) = findall_fields s.
Proof. intros H. unfold findall_fields. cbn [findall_fields_from]. now rewrite H. Qed.

(** Every match found spans its text somewhere in the page. *)
Lemma findall_fields_sound (html : string) (m : field_match) :
  In m (findall_fields html) ->
  (exists pre post, html = pre +:+ field_text m +:+ post) /\
  has_char dq (group1 m) = false /\ has_char dq (group4 m) = false.
Proof.
  remember (String.length html) as n eqn:Hn. revert html Hn.
  induction n as [n IH] using lt_wf_ind. intros html Hn Hin.
  destruct html as [|c s]; [contradiction|].
  destruct (field_at (String c s)) as [[m' rest]|] eqn:E.
  - rewrite (findall_fields_here _ _ _ E) in Hin.
    pose proof (field_at_sound _ _ _ E) as (Hs & H1 & _ & H4 & _).
    destruct Hin as [<- | Hin].
    + split; [|auto]. exists EmptyString, rest. now rewrite append_nil_l.
    + assert (Hlt : (String.length rest < n)%nat).
      { subst n. rewrite Hs, length_append. unfold field_text.
        rewrite !append_cons. cbn [String.length]. lia. }
      destruct (IH _ Hlt rest eq_refl Hin) as ((pre & post & Hrest) & Hg).
      split; [|exact Hg]. exists (field_text m' +:+ pre), post.
      now rewrite Hs, Hrest, append_assoc.
  - rewrite (findall_fields_next _ _ E) in Hin.
    assert (Hlt : (String.length s < n)%nat) by (subst n; cbn; lia).
    destruct (IH _ Hlt s eq_refl Hin) as ((pre & post & Hs) & Hg).
    split; [|exact Hg]. exists (String c pre), post. now rewrite Hs.
Qed.

(** The dictionary built from the matches: a name is bound to the value of
    its last match. *)
Lemma fields_of_matches (ms : list field_match) (f0 : gmap string string) (name : string) :
  fold_left (fun (f : gmap string string) m => <[group1 m := group4 m]> f) ms f0 !! name =
  match last (List.filter (fun m => String.eqb (group1 m) name) ms) with
  | Some m => Some (group4 m)
  | None => f0 !! name
  end.
Proof.
  revert f0. induction ms as [|m ms IH]; intros f0; [reflexivity|].
  cbn [fold_left List.filter]. rewrite IH.
  destruct (String.eqb_spec (group1 m) name) as [Heq|Hne].
  - rewrite last_cons. destruct (last _); [reflexivity|].
    rewrite Heq. apply lookup_insert_eq.
  - destruct (last _); [reflexivity|]. now apply lookup_insert_ne.
Qed.

(** The literal of the action pattern does not overlap itself: where it
    does not start a text, it does not start that text followed by the
    literal either. *)
Lemma action_literal_no_overlap (c : ascii) (pre rest : string) :
  String.prefix ("action=" +:+ dquote) (String c pre) = false ->
  String.prefix ("action=" +:+ dquote) (String c pre +:+ ("action=" +:+ dquote) +:+ rest)
  = false.
Proof.
  pose (lit := "action=" +:+ dquote).
  change ("action=" +:+ dquote) with lit. vm_compute in lit. subst lit.
  intros H.
  destruct pre as [|c1 [|c2 [|c3 [|c4 [|c5 [|c6 [|c7 pre]]]]]]];
    rewrite ?append_cons, ?append_nil_l; cbn [String.prefix] in H |- *;
    repeat match goal with
           | |- context [ascii_dec ?a ?b] => destruct (ascii_dec a b); try reflexivity
           | H : context [ascii_dec ?a ?b] |- _ => destruct (ascii_dec a b)
           end;
    try reflexivity; try discriminate; try congruence.
  destruct pre; discriminate.
Qed.

Lemma search_action_unfold (html : string) :
  search_action html =
  match quoted "action=" html with
  | Some (g, _) => Some g
  | None =>
      match html with
      | EmptyString => None
      | String _ s' => search_action s'
      end
  end.
Proof. destruct html; reflexivity. Qed.

Lemma quoted_None (lit s : string) :
  String.prefix (lit +:+ dquote) s = false -> quoted lit s = None.
Proof. intros H. unfold quoted, strip_prefix. now rewrite H. Qed.

(** [search]: the group of the first occurrence. *)
Lemma search_action_first (pre g post : string) :
  contains ("action=" +:+ dquote) pre = false ->
  has_char dq g = false ->
  search_action (pre +:+ ("action=" +:+ dquote) +:+ g +:+ dquote +:+ post) = Some g.
Proof.
  intros Hpre Hg. induction pre as [|c pre IH].
  - rewrite append_nil_l, search_action_unfold.
    now replace (quoted "action=" _) with (Some (g, post))
      by (symmetry; now apply quoted_spec).
  - cbn [contains] in Hpre. apply orb_false_iff in Hpre as [Hhere Hlater].
    rewrite search_action_unfold.
    rewrite quoted_None by now apply action_literal_no_overlap.
    rewrite append_cons. now apply IH.
Qed.

(** Without the literal of the action pattern the page has no match. *)
Lemma search_action_None (html : string) :
  contains ("action=" +:+ dquote) html = false -> search_action html = None.
Proof.
  induction html as [|c s IH]; intros H; rewrite search_action_unfold;
    cbn [contains] in H; apply orb_false_iff in H as [Hhere Hlater];
    rewrite quoted_None by exact Hhere; [reflexivity | now apply IH].
Qed.

(** C7. [extract_form] binds every name matched by the field pattern, each
    to the value of its last match, and takes as action the group of the
    first occurrence of the action pattern alone; on the example page it
    returns the action https://x/acs and the one field SAMLResponse with
    the value abc123. *)
Theorem extract_form_all_fields_first_action (html : string) :
  (forall name,
     fields (extract_form html) !! name =
     group4 <$> last (List.filter (fun m => String.eqb (group1 m) name)
                                  (findall_fields html))) /\
  (forall m, In m (findall_fields html) ->
     is_Some (fields (extract_form html) !! group1 m)) /\
  (forall pre g post,
     contains ("action=" +:+ dquote) pre = false -> has_char dq g = false ->
     html = pre +:+ ("action=" +:+ dquote) +:+ g +:+ dquote +:+ post ->
     action (extract_form html) = g) /\
  extract_form form_page =
    {| action := "https://x/acs"; fields := {[ "SAMLResponse" := "abc123" ]} |} /\
  extract_form two_forms_page =
    {| action := "https://x/acs";
       fields := {[ "SAMLResponse" := "abc123"; "RelayState" := "xyz" ]} |}.
Proof.
  assert (Hfields : forall name,
    fields (extract_form html) !! name =
    group4 <$> last (List.filter (fun m => String.eqb (group1 m) name)
                                 (findall_fields html))).
  { intros name. unfold extract_form. cbn [fields]. rewrite fields_of_matches.
    destruct (last _); [reflexivity | apply lookup_empty]. }
  split; [exact Hfields|]. split; [|split; [|split]].
  - intros m Hm. rewrite Hfields.
    destruct (last _) as [m'|] eqn:E; [now eexists|].
    apply last_None in E.
    assert (Hin : In m (List.filter (fun m0 => String.eqb (group1 m0) (group1 m))
                          (findall_fields html)))
      by (apply filter_In; split; [exact Hm | apply String.eqb_refl]).
    rewrite E in Hin. contradiction.
  - intros pre g post Hpre Hg ->. unfold extract_form. cbn [action].
    now rewrite search_action_first.
  - vm_compute. reflexivity.
  - vm_compute. reflexivity.
Qed.

Lemma extract_form_all_fields_first_action_witness :
  contains ("action=" +:+ dquote) "<form " = false /\
  has_char dq "https://x/acs" = false /\
  In {| group1 := "RelayState"; group2 := "id=" +:+ dquote +:+ "rs" +:+ dquote +:+ " ";
        group3 := "rs"; group4 := "xyz" |} (findall_fields two_forms_page) /\
  is_Some (fields (extract_form two_forms_page) !! "RelayState") /\
  action (extract_form two_forms_page) = "https://x/acs".
Proof.
  split; [reflexivity|]. split; [reflexivity|].
  assert (Hin : In {| group1 := "RelayState";
                      group2 := "id=" +:+ dquote +:+ "rs" +:+ dquote +:+ " ";
                      group3 := "rs"; group4 := "xyz" |} (findall_fields two_forms_page))
    by (vm_compute; auto).
  split; [exact Hin|].
  destruct (extract_form_all_fields_first_action two_forms_page) as (_ & Hall & Hact & _).
  split; [exact (Hall _ Hin)|].
  apply (Hact "<form " "https://x/acs"
           (String.substring 28 400 two_forms_page)); vm_compute; reflexivity.
Defined.

(** ** The diagnostic of the launch page *)

Lemma scrape_line_cleaned (unescape : string -> string) (error line : string) :
  scrape_line unescape error line =
  match search_h2 line with
  | Some g => nl +:+ cleaned unescape g
  | None => error
  end.
Proof. reflexivity. Qed.

(** After the loop [error] comes from the last line that has a heading. *)
Lemma scrape_lines_last (unescape : string -> string) (lines : list string) (error : string) :
  fold_left (scrape_line unescape) lines error =
  match last (omap search_h2 lines) with
  | Some g => nl +:+ cleaned unescape g
  | None => error
  end.
Proof.
  revert error. induction lines as [|line lines IH]; intros error; [reflexivity|].
  cbn [fold_left]. rewrite IH, scrape_line_cleaned.
  change (omap search_h2 (line :: lines))
    with (match search_h2 line with
          | Some g => g :: omap search_h2 lines
          | None => omap search_h2 lines
          end).
  destruct (search_h2 line) as [g|]; [|reflexivity].
  rewrite last_cons. now destruct (last _).
Qed.

(** A line that is one heading: the group is what the tags enclose. *)
Lemma greedy_h2_body_whole (g : string) :
  has_char newline g = false -> greedy_h2_body (g +:+ "</h2>") = Some g.
Proof.
  induction g as [|c g IH]; intros H; [reflexivity|].
  cbn [has_char] in H. apply orb_false_iff in H as [Hc Hg].
  rewrite append_cons. cbn [greedy_h2_body]. now rewrite Hc, IH.
Qed.

Lemma search_h2_unfold (line : string) :
  search_h2 line =
  match match strip_prefix "<h2>" line with
        | Some body => greedy_h2_body body
        | None => None
        end with
  | Some g => Some g
  | None =>
      match line with
      | EmptyString => None
      | String _ s' => search_h2 s'
      end
  end.
Proof. destruct line; reflexivity. Qed.

Lemma search_h2_heading (g : string) :
  has_char newline g = false -> search_h2 ("<h2>" +:+ g +:+ "</h2>") = Some g.
Proof.
  intros H. rewrite search_h2_unfold.
  replace (strip_prefix "<h2>" ("<h2>" +:+ g +:+ "</h2>")) with (Some (g +:+ "</h2>"))
    by (symmetry; now apply strip_prefix_spec).
  now rewrite greedy_h2_body_whole.
Qed.

Lemma splitlines_from_one_line (cur s : string) :
  no_linebreak s = true ->
  splitlines_from cur false s =
  if String.eqb (cur +:+ s) EmptyString then [] else [cur +:+ s].
Proof.
  revert cur. induction s as [|c s IH]; intros cur H.
  - cbn [splitlines_from]. now rewrite append_nil_r.
  - cbn [no_linebreak] in H. apply andb_true_iff in H as [Hc Hs].
    apply negb_true_iff in Hc. cbn [splitlines_from andb]. rewrite Hc.
    rewrite IH by exact Hs. now rewrite append_assoc, append_cons, append_nil_l.
Qed.

Lemma no_linebreak_append (s t : string) :
  no_linebreak (s +:+ t) = no_linebreak s && no_linebreak t.
Proof.
  induction s as [|c s IH]; [reflexivity|].
  rewrite append_cons. cbn [no_linebreak]. now rewrite IH, andb_assoc.
Qed.

Lemma no_linebreak_no_newline (s : string) :
  no_linebreak s = true -> has_char newline s = false.
Proof.
  induction s as [|c s IH]; [reflexivity|]. cbn [no_linebreak has_char].
  intros H. apply andb_true_iff in H as [Hc Hs]. rewrite (IH Hs), orb_false_r.
  destruct (Ascii.eqb_spec c newline) as [->|]; [discriminate Hc | reflexivity].
Qed.

(** A page that is one heading on one line: [error] is a line feed and the
    cleaned text of the heading. *)
Lemma scrape_error_one_heading (unescape : string -> string) (g : string) :
  no_linebreak g = true ->
  scrape_error unescape ("<h2>" +:+ g +:+ "</h2>") = nl +:+ cleaned unescape g.
Proof.
  intros H. unfold scrape_error, splitlines.
  rewrite splitlines_from_one_line
    by (rewrite !no_linebreak_append, H; reflexivity).
  rewrite append_nil_l.
  change (String.eqb ("<h2>" +:+ g +:+ "</h2>") EmptyString) with false.
  cbn [fold_left]. rewrite scrape_line_cleaned.
  now rewrite search_h2_heading by now apply no_linebreak_no_newline.
Qed.

Section LaunchPage.

Context {Session : Type}.
Variable send : Session -> request -> result response * Session.
Variable unescape : string -> string.
Variable b64decode : string -> result string.

(** C8, amended. When the launch page holds no action attribute,
    [extract_form] gives the empty action and [get_saml_token] raises
    [ValueError] with the fixed text followed by [error]: empty when no
    line has a heading, else a line feed and the group of the last line
    that has one, with the character references replaced, every br tag
    turned into a line feed and the b tags removed.  For the page that is
    the heading Error message alone, [error] is a line feed and that
    text. *)
Theorem get_saml_token_without_action (server cfg : string) (w : @world Session)
  (resp : response) (s : Session) :
  send (session w) (sso_request server cfg) = (Ok resp, s) ->
  contains ("action=" +:+ dquote) (response_text resp) = false ->
  action (extract_form (response_text resp)) = EmptyString /\
  get_saml_token send unescape b64decode server cfg w =
    (Raise (ValueError ("Unable to find SAML ACS" +:+
                        scrape_error unescape (response_text resp))),
     after w s (sso_request server cfg)) /\
  scrape_error unescape (response_text resp) =
    match last (omap search_h2 (splitlines (response_text resp))) with
    | Some g => nl +:+ cleaned unescape g
    | None => EmptyString
    end /\
  (forall g, no_linebreak g = true ->
     scrape_error unescape ("<h2>" +:+ g +:+ "</h2>") = nl +:+ cleaned unescape g) /\
  (unescape "Error message" = "Error message" ->
   scrape_error unescape "<h2>Error message</h2>" = nl +:+ "Error message").
Proof.
  intros Hsend Hno.
  assert (Hact : action (extract_form (response_text resp)) = EmptyString).
  { unfold extract_form. cbn [action]. now rewrite search_action_None. }
  split; [exact Hact|]. split; [|split; [|split]].
  - unfold get_saml_token, and_then, session_get, session_request.
    fold (sso_request server cfg). rewrite Hsend, Hact. reflexivity.
  - apply scrape_lines_last.
  - intros g Hg. now apply scrape_error_one_heading.
  - intros Hu.
    change "<h2>Error message</h2>" with ("<h2>" +:+ "Error message" +:+ "</h2>").
    rewrite scrape_error_one_heading by reflexivity.
    unfold cleaned. rewrite Hu. reflexivity.
Qed.

End LaunchPage.

Lemma get_saml_token_without_action_witness :
  contains ("action=" +:+ dquote) error_page = false /\
  fst (get_saml_token (stateless (answers (ok_response "1") (ok_response error_page)))
         (fun s => s) (fun s => Ok s) "https://lastpass.com" "42" fresh) =
  Raise (ValueError ("Unable to find SAML ACS" +:+ nl +:+ "Error message")).
Proof.
  split; [reflexivity|].
  destruct (get_saml_token_without_action
              (stateless (answers (ok_response "1") (ok_response error_page)))
              (fun s => s) (fun s => Ok s) "https://lastpass.com" "42" fresh
              (ok_response error_page) tt eq_refl eq_refl) as (_ & -> & _).
  reflexivity.
Defined.

(** C8 as stated fails: a page without action that contains the heading
    Error message, followed by a line with another heading, gives the text
    of the later heading, with the br tag turned into a line feed. *)
Lemma scrape_error_takes_last_heading :
  contains ("action=" +:+ dquote) two_headings_page = false /\
  contains "<h2>Error message</h2>" two_headings_page = true /\
  scrape_error (fun s => s) two_headings_page =
    nl +:+ "Please contact support" +:+ nl +:+ "today" /\
  fst (get_saml_token (stateless (answers (ok_response "1") (ok_response two_headings_page)))
         (fun s => s) (fun s => Ok s) "https://lastpass.com" "42" fresh) =
  Raise (ValueError ("Unable to find SAML ACS" +:+ nl +:+ "Please contact support" +:+
                     nl +:+ "today")).
Proof. repeat (split; [vm_compute; reflexivity|]). vm_compute. reflexivity. Qed.

(** * Further properties of the code *)

(** ** Further properties of the byte strings *)

Lemma Z_of_byte_range (b : byte) : 0 <= Z_of_byte b < 256.
Proof.
  unfold Z_of_byte. pose proof (Byte.to_N_bounded b) as H. lia.
Qed.

Lemma byte_of_Z_of_byte (b : byte) : byte_of_Z (Z_of_byte b) = b.
Proof. destruct b; vm_compute; reflexivity. Qed.

Lemma Z_of_byte_of_Z (z : Z) : 0 <= z < 256 -> Z_of_byte (byte_of_Z z) = z.
Proof.
  intros H. unfold byte_of_Z, Z_of_byte. rewrite Z.mod_small by exact H.
  destruct (Byte.of_N (Z.to_N z)) as [b|] eqn:E.
  - apply Byte.to_of_N in E. rewrite E. lia.
  - apply Byte.of_N_None_iff in E. lia.
Qed.

Lemma lxor_byte_range (x y : Z) : 0 <= x < 256 -> 0 <= y < 256 -> 0 <= Z.lxor x y < 256.
Proof.
  intros Hx Hy.
  assert (Hnn : 0 <= Z.lxor x y) by (apply Z.lxor_nonneg; lia).
  split; [exact Hnn|].
  destruct (Z.eq_dec (Z.lxor x y) 0) as [->|Hne]; [lia|].
  change 256 with (2 ^ 8). apply Z.log2_lt_pow2; [lia|].
  pose proof (Z.log2_lxor x y ltac:(lia) ltac:(lia)) as Hl.
  assert (Z.log2 x < 8).
  { destruct (Z.eq_dec x 0) as [->|]; [cbn; lia|]. apply Z.log2_lt_pow2; lia. }
  assert (Z.log2 y < 8).
  { destruct (Z.eq_dec y 0) as [->|]; [cbn; lia|]. apply Z.log2_lt_pow2; lia. }
  lia.
Qed.

(** X1. On two strings of one length [xorbytes] gives a string of that
    length, does not depend on the order of its arguments, and is undone by
    a second application with the same string: the accumulation of the
    blocks loses nothing. *)
Theorem xorbytes_involutive (a b : bytes) :
  length a = length b ->
  length (xorbytes a b) = length a /\
  xorbytes a b = xorbytes b a /\
  xorbytes (xorbytes a b) b = a.
Proof.
  revert b. induction a as [|x a IH]; intros [|y b] Hlen; try discriminate.
  - repeat split.
  - injection Hlen as Hlen. destruct (IH b Hlen) as (Hl & Hc & Hi).
    unfold xorbytes in *. cbn [combine map fst snd length].
    split; [now rewrite Hl|]. split.
    + now rewrite Hc, Z.lxor_comm.
    + rewrite Hi. f_equal.
      rewrite Z_of_byte_of_Z
        by (apply lxor_byte_range; apply Z_of_byte_range).
      rewrite Z.lxor_assoc, Z.lxor_nilpotent, Z.lxor_0_r.
      apply byte_of_Z_of_byte.
Qed.

Lemma xorbytes_involutive_witness :
  length (ascii_bytes "secret") = length (ascii_bytes "mask42") /\
  xorbytes (xorbytes (ascii_bytes "secret") (ascii_bytes "mask42")) (ascii_bytes "mask42") =
  ascii_bytes "secret".
Proof.
  split; [reflexivity|].
  exact (proj2 (proj2 (xorbytes_involutive (ascii_bytes "secret") (ascii_bytes "mask42")
                         eq_refl))).
Defined.

(** ** Further properties of the HTTP stages *)

Lemma login_params_lookup (username hash : bytes) (iterations : Z) (otp : option string)
  (key : string) :
  key <> "otp" ->
  login_params username hash iterations otp !! key =
  login_params username hash iterations None !! key.
Proof.
  intros H. destruct otp as [o|]; [|reflexivity].
  unfold login_params. now rewrite lookup_insert_ne by congruence.
Qed.

(** X5. The form of the login request always has the fields method, xml,
    username, hash and iterations, with the values web and 1 for the first
    two; the field otp is present exactly when a passcode is given, with
    that passcode, and no other field is sent. *)
Theorem login_params_fields (username hash : bytes) (iterations : Z) (otp : option string) :
  let params := login_params username hash iterations otp in
  params !! "method" = Some (VStr "web") /\
  params !! "xml" = Some (VStr "1") /\
  params !! "username" = Some (VBytes username) /\
  params !! "hash" = Some (VBytes hash) /\
  params !! "iterations" = Some (VInt iterations) /\
  params !! "otp" = VStr <$> otp /\
  dom params =
    ({[ "method"; "xml"; "username"; "hash"; "iterations" ]} : gset string) ∪
    match otp with
    | Some _ => {[ "otp" ]}
    | None => ∅
    end.
Proof.
  cbv zeta.
  repeat (split; [rewrite login_params_lookup by discriminate; reflexivity|]).
  split.
  - destruct otp as [o|]; unfold login_params.
    + now rewrite lookup_insert_eq.
    + reflexivity.
  - destruct otp as [o|]; unfold login_params;
      rewrite ?dom_insert_L, dom_singleton_L; set_solver.
Qed.

Section MoreStages.

Context {Session : Type}.
Variable send : Session -> request -> result response * Session.
Variable py_int : string -> option Z.
Variable fromstring : string -> result element.
Variable unescape : string -> string.
Variable b64decode : string -> result string.

(** X6. In the language of the module a login never gets past the hash:
    [lastpass_login] raises on every input, sends the discovery request and
    nothing else (no request to the login page, so no answer is read), and
    once the iteration count is known the exception is the [TypeError] of
    [pbkdf2]. *)
Theorem lastpass_login_stops_at_hash (server : string) (username password : bytes)
  (otp : option string) (w : @world Session) :
  let run := lastpass_login send py_int fromstring TrueDivision server username
               password otp w in
  (exists e, fst run = Raise e) /\
  sent (snd run) = sent w ++ [iterations_request server username] /\
  (forall n w1,
     lastpass_iterations send py_int server username w = (Ok n, w1) ->
     run = (Raise TypeError, w1)).
Proof.
  cbv zeta.
  pose proof (lastpass_iterations_sent send py_int server username w) as Hsent.
  destruct (lastpass_iterations send py_int server username w) as [[n|e] w1] eqn:Hit.
  - rewrite (lastpass_login_true_division send py_int fromstring server username
               password otp w w1 n Hit).
    cbn [fst snd] in *. split; [eauto|]. split; [exact Hsent|].
    now intros n' w1' [= <- <-].
  - unfold lastpass_login, and_then. rewrite Hit. cbn [fst snd] in *.
    split; [eauto|]. split; [exact Hsent|]. discriminate.
Qed.

Lemma get_saml_token_run (server cfg : string) (w : @world Session) :
  get_saml_token send unescape b64decode server cfg w =
  match send (session w) (sso_request server cfg) with
  | (Ok resp, s) =>
      (if String.eqb (action (extract_form (response_text resp))) EmptyString
       then Raise (ValueError ("Unable to find SAML ACS" +:+
                               scrape_error unescape (response_text resp)))
       else match fields (extract_form (response_text resp)) !! "SAMLResponse" with
            | Some v => b64decode v
            | None => Raise (KeyError "SAMLResponse")
            end,
       after w s (sso_request server cfg))
  | (Raise e, s) => (Raise e, after w s (sso_request server cfg))
  end.
Proof.
  unfold get_saml_token, and_then, session_get, session_request.
  fold (sso_request server cfg).
  destruct (send (session w) (sso_request server cfg)) as [[resp|e] s]; [|reflexivity].
  destruct (String.eqb _ _); [reflexivity|].
  now destruct (_ !! _).
Qed.

(** X8. When the launch page has a non-empty action: [get_saml_token]
    returns what [b64decode] gives for the value of the field SAMLResponse
    (or raises what it raises), and raises [KeyError] for SAMLResponse when
    the page has no field of that name. *)
Theorem get_saml_token_with_action (server cfg : string) (w : @world Session)
  (resp : response) (s : Session) :
  send (session w) (sso_request server cfg) = (Ok resp, s) ->
  action (extract_form (response_text resp)) <> EmptyString ->
  let run := get_saml_token send unescape b64decode server cfg w in
  let w1 := after w s (sso_request server cfg) in
  (forall v, fields (extract_form (response_text resp)) !! "SAMLResponse" = Some v ->
     run = (b64decode v, w1)) /\
  (fields (extract_form (response_text resp)) !! "SAMLResponse" = None ->
   run = (Raise (KeyError "SAMLResponse"), w1)).
Proof.
  intros Hsend Hact run w1. subst run. rewrite get_saml_token_run, Hsend.
  apply String.eqb_neq in Hact. rewrite Hact.
  split; [intros v Hv | intros Hv]; now rewrite Hv.
Qed.

(** X9. An action attribute with an empty value counts as no action: when
    the first action attribute of the launch page is empty,
    [get_saml_token] raises the [ValueError] of the missing form, whatever
    fields the page has. *)
Theorem get_saml_token_empty_action (server cfg : string) (w : @world Session)
  (resp : response) (s : Session) (pre post : string) :
  send (session w) (sso_request server cfg) = (Ok resp, s) ->
  contains ("action=" +:+ dquote) pre = false ->
  response_text resp = pre +:+ ("action=" +:+ dquote) +:+ dquote +:+ post ->
  action (extract_form (response_text resp)) = EmptyString /\
  get_saml_token send unescape b64decode server cfg w =
    (Raise (ValueError ("Unable to find SAML ACS" +:+
                        scrape_error unescape (response_text resp))),
     after w s (sso_request server cfg)).
Proof.
  intros Hsend Hpre Htext.
  assert (Hact : action (extract_form (response_text resp)) = EmptyString).
  { unfold extract_form. cbn [action]. rewrite Htext.
    rewrite <- (append_nil_l (dquote +:+ post)).
    now rewrite search_action_first. }
  split; [exact Hact|].
  now rewrite get_saml_token_run, Hsend, Hact.
Qed.

End MoreStages.

Lemma get_saml_token_with_action_witness :
  action (extract_form form_page) <> EmptyString /\
  fst (get_saml_token (stateless (answers (ok_response "1") (ok_response form_page)))
         (fun s => s) (fun s => Ok s) "https://lastpass.com" "42" fresh) = Ok "abc123" /\
  action (extract_form action_only_page) <> EmptyString /\
  fst (get_saml_token (stateless (answers (ok_response "1") (ok_response action_only_page)))
         (fun s => s) (fun s => Ok s) "https://lastpass.com" "42" fresh) =
    Raise (KeyError "SAMLResponse").
Proof.
  assert (H1 : action (extract_form form_page) <> EmptyString)
    by (vm_compute; discriminate).
  assert (H2 : action (extract_form action_only_page) <> EmptyString)
    by (vm_compute; discriminate).
  split; [exact H1|]. split.
  - destruct (get_saml_token_with_action
                (stateless (answers (ok_response "1") (ok_response form_page)))
                (fun s => s) (fun s => Ok s) "https://lastpass.com" "42" fresh
                (ok_response form_page) tt eq_refl H1) as (Hsome & _).
    rewrite (Hsome "abc123" ltac:(vm_compute; reflexivity)). reflexivity.
  - split; [exact H2|].
    destruct (get_saml_token_with_action
                (stateless (answers (ok_response "1") (ok_response action_only_page)))
                (fun s => s) (fun s => Ok s) "https://lastpass.com" "42" fresh
                (ok_response action_only_page) tt eq_refl H2) as (_ & Hnone).
    rewrite (Hnone ltac:(vm_compute; reflexivity)). reflexivity.
Defined.

Lemma get_saml_token_empty_action_witness :
  contains ("action=" +:+ dquote) "<form " = false /\
  fields (extract_form empty_action_page) !! "SAMLResponse" = Some "abc123" /\
  fst (get_saml_token (stateless (answers (ok_response "1") (ok_response empty_action_page)))
         (fun s => s) (fun s => Ok s) "https://lastpass.com" "42" fresh) =
    Raise (ValueError "Unable to find SAML ACS").
Proof.
  split; [reflexivity|]. split; [vm_compute; reflexivity|].
  destruct (get_saml_token_empty_action
              (stateless (answers (ok_response "1") (ok_response empty_action_page)))
              (fun s => s) (fun s => Ok s) "https://lastpass.com" "42" fresh
              (ok_response empty_action_page) tt "<form "
              (String.substring 15 200 empty_action_page) eq_refl eq_refl
              ltac:(vm_compute; reflexivity)) as (_ & ->).
  vm_compute. reflexivity.
Defined.

(** ** Further properties of the assertion parsing *)

Lemma head_filter_first {A : Type} (p : A -> bool) (before rest : list A) (e : A) :
  p e = true -> Forall (fun x => p x = false) before ->
  head (List.filter p (before ++ e :: rest)) = Some e.
Proof.
  intros He Hb. induction Hb as [|x before Hx Hb IH]; cbn [app List.filter].
  - now rewrite He.
  - now rewrite Hx.
Qed.

Lemma head_filter_none {A : Type} (p : A -> bool) (l : list A) :
  Forall (fun x => p x = false) l -> head (List.filter p l) = None.
Proof.
  intros H. induction H as [|x l Hx Hl IH]; [reflexivity|].
  cbn [List.filter]. now rewrite Hx.
Qed.

Lemma tag_differs (t : string) (l : list element) :
  Forall (fun x => tag x <> t) l -> Forall (fun x => String.eqb (tag x) t = false) l.
Proof.
  intros H. induction H as [|x l Hx Hl IH]; constructor; [|exact IH].
  now apply String.eqb_neq.
Qed.

Section MoreAssertions.

Variable fromstring : string -> result element.

(** X10. For an assertion that parses, [get_saml_nameid] returns the text
    of the first element tagged NameID (in the assertion namespace) among
    the descendants of the root in document order, the root itself left
    out; that text may be [None].  Without such a descendant it raises
    [AttributeError]. *)
Theorem get_saml_nameid_first_descendant (assertion : string) (doc : element) :
  fromstring assertion = Ok doc ->
  (forall before e rest,
     flat_map iter (children doc) = before ++ e :: rest ->
     tag e = saml "NameID" ->
     Forall (fun x => tag x <> saml "NameID") before ->
     get_saml_nameid fromstring assertion = Ok (text e)) /\
  (Forall (fun x => tag x <> saml "NameID") (flat_map iter (children doc)) ->
   get_saml_nameid fromstring assertion = Raise AttributeError).
Proof.
  intros Hparse. unfold get_saml_nameid, descendants. rewrite Hparse. cbn [bind]. split.
  - intros before e rest -> Htag Hbefore.
    rewrite (head_filter_first _ before rest e);
      [reflexivity | now apply String.eqb_eq | now apply tag_differs].
  - intros Hnone. now rewrite head_filter_none by now apply tag_differs.
Qed.

(** X11. One selected value without text is enough for
    [get_saml_aws_roles] to raise [AttributeError]: no list is returned,
    not even of the values that have text. *)
Theorem get_saml_aws_roles_textless_value (assertion : string) (doc : element) :
  fromstring assertion = Ok doc ->
  Exists (fun a => text a = None) (findall_role_values doc) ->
  get_saml_aws_roles fromstring assertion = Raise AttributeError.
Proof. apply get_saml_aws_roles_no_text. Qed.

Lemma comprehension_nil {A B : Type} (f : A -> result B) (l : list A) :
  comprehension f l = Ok [] <-> l = [].
Proof.
  split; [|now intros ->]. destruct l as [|a l]; [reflexivity|].
  cbn [comprehension]. destruct (f a) as [b|e]; cbn [bind]; [|discriminate].
  destruct (comprehension f l); cbn [bind]; discriminate.
Qed.

(** X12. For an assertion that parses, [get_saml_aws_roles] returns the
    empty list exactly when the path selects no value: an assertion without
    roles is not an error of this function. *)
Theorem get_saml_aws_roles_empty (assertion : string) (doc : element) :
  fromstring assertion = Ok doc ->
  get_saml_aws_roles fromstring assertion = Ok [] <-> findall_role_values doc = [].
Proof.
  intros Hparse. unfold get_saml_aws_roles. rewrite Hparse. cbn [bind].
  apply comprehension_nil.
Qed.

Lemma Forall2_In_r {A B : Type} (R : A -> B -> Prop) (l : list A) (l' : list B) (b : B) :
  Forall2 R l l' -> In b l' -> exists a, In a l /\ R a b.
Proof.
  intros H. induction H as [|x y l l' Hxy H IH]; [contradiction|].
  intros [<- | Hin]; [exists x; cbn; auto|].
  destruct (IH Hin) as (a & Ha & HR). exists a. cbn. auto.
Qed.

Lemma Forall2_In_l {A B : Type} (R : A -> B -> Prop) (l : list A) (l' : list B) (a : A) :
  Forall2 R l l' -> In a l -> exists b, In b l' /\ R a b.
Proof.
  intros H. induction H as [|x y l l' Hxy H IH]; [contradiction|].
  intros [<- | Hin]; [exists y; cbn; auto|].
  destruct (IH Hin) as (b & Hb & HR). exists b. cbn. auto.
Qed.

(** X13. When [get_saml_aws_roles] returns, its entries are exactly the
    split texts of the elements tagged AttributeValue that are children of
    a descendant of the root tagged Attribute whose Name is the role
    attribute of AWS: values under an attribute of another name, or under
    the root itself, give no entry. *)
Theorem get_saml_aws_roles_selection (assertion : string) (doc : element)
  (roles : list (list string)) :
  fromstring assertion = Ok doc ->
  get_saml_aws_roles fromstring assertion = Ok roles ->
  forall role,
    In role roles <->
    exists a v t,
      In a (flat_map iter (children doc)) /\ tag a = saml "Attribute" /\
      get a "Name" = Some role_attrib /\
      In v (children a) /\ tag v = saml "AttributeValue" /\
      text v = Some t /\ role = split "," 2 t.
Proof.
  intros Hparse Hroles role. unfold get_saml_aws_roles in Hroles.
  rewrite Hparse in Hroles. cbn [bind] in Hroles.
  apply comprehension_Forall2 in Hroles. split.
  - intros Hin. destruct (Forall2_In_r _ _ _ _ Hroles Hin) as (v & Hv & Hrole).
    apply findall_role_values_spec in Hv as (a & Ha & Htag & Hname & Hv & Hvt).
    unfold role_of in Hrole. destruct (text v) as [t|] eqn:Et; [|discriminate].
    injection Hrole as <-. exists a, v, t. auto 10.
  - intros (a & v & t & Ha & Htag & Hname & Hv & Hvt & Et & ->).
    assert (Hsel : In v (findall_role_values doc))
      by (apply findall_role_values_spec; eauto 10).
    destruct (Forall2_In_l _ _ _ _ Hroles Hsel) as (role & Hin & Hrole).
    unfold role_of in Hrole. rewrite Et in Hrole. now injection Hrole as <-.
Qed.

End MoreAssertions.

Lemma get_saml_nameid_first_descendant_witness :
  fromstring_table [(nameid_text, nameid_doc)] nameid_text = Ok nameid_doc /\
  get_saml_nameid (fromstring_table [(nameid_text, nameid_doc)]) nameid_text =
    Ok (Some "user@example.com") /\
  get_saml_nameid (fromstring_table assertions) (assertion_text [role_A; role_B]) =
    Raise AttributeError.
Proof.
  assert (H : fromstring_table [(nameid_text, nameid_doc)] nameid_text = Ok nameid_doc)
    by (vm_compute; reflexivity).
  split; [exact H|]. split.
  - destruct (get_saml_nameid_first_descendant _ _ _ H) as (Hfirst & _).
    apply (Hfirst
             [Element (saml "Subject") ∅ None
                [Element (saml "NameID") ∅ (Some "user@example.com") []]]
             (Element (saml "NameID") ∅ (Some "user@example.com") [])
             [Element (saml "NameID") ∅ (Some "other") []]).
    + reflexivity.
    + reflexivity.
    + repeat constructor. vm_compute. discriminate.
  - destruct (get_saml_nameid_first_descendant (fromstring_table assertions)
                (assertion_text [role_A; role_B]) (assertion_doc [role_A; role_B])
                ltac:(vm_compute; reflexivity)) as (_ & Hnone).
    apply Hnone. vm_compute. repeat constructor; discriminate.
Defined.

Lemma get_saml_aws_roles_textless_value_witness :
  let doc := Element (saml "Assertion") ∅ None
               [Element (saml "Attribute") {[ "Name" := role_attrib ]} None
                  [Element (saml "AttributeValue") ∅ (Some role_A) [];
                   Element (saml "AttributeValue") ∅ None []]] in
  Exists (fun a => text a = None) (findall_role_values doc) /\
  get_saml_aws_roles (fromstring_table [("<assertion/>", doc)]) "<assertion/>" =
    Raise AttributeError.
Proof.
  intros doc.
  assert (H : Exists (fun a => text a = None) (findall_role_values doc))
    by (vm_compute; right; left; reflexivity).
  split; [exact H|].
  exact (get_saml_aws_roles_textless_value (fromstring_table [("<assertion/>", doc)])
           "<assertion/>" doc ltac:(vm_compute; reflexivity) H).
Defined.

Lemma get_saml_aws_roles_empty_witness :
  fromstring_table [(nameid_text, nameid_doc)] nameid_text = Ok nameid_doc /\
  findall_role_values nameid_doc = [] /\
  get_saml_aws_roles (fromstring_table [(nameid_text, nameid_doc)]) nameid_text = Ok [].
Proof.
  assert (H : fromstring_table [(nameid_text, nameid_doc)] nameid_text = Ok nameid_doc)
    by (vm_compute; reflexivity).
  assert (Hnone : findall_role_values nameid_doc = []) by (vm_compute; reflexivity).
  split; [exact H|]. split; [exact Hnone|].
  exact (proj2 (get_saml_aws_roles_empty _ _ _ H) Hnone).
Defined.

Lemma get_saml_aws_roles_selection_witness :
  In ["arn:aws:iam::111:role/B"; "arn:aws:iam::111:saml-provider/IdP"]
     [split "," 2 role_A; split "," 2 role_B] /\
  exists a v t,
    In a (flat_map iter (children (assertion_doc [role_A; role_B]))) /\
    tag a = saml "Attribute" /\ get a "Name" = Some role_attrib /\
    In v (children a) /\ tag v = saml "AttributeValue" /\ text v = Some t /\
    ["arn:aws:iam::111:role/B"; "arn:aws:iam::111:saml-provider/IdP"] = split "," 2 t.
Proof.
  assert (Hin : In ["arn:aws:iam::111:role/B"; "arn:aws:iam::111:saml-provider/IdP"]
                  [split "," 2 role_A; split "," 2 role_B])
    by (vm_compute; auto).
  split; [exact Hin|].
  exact (proj1 (get_saml_aws_roles_selection (fromstring_table assertions)
                  (assertion_text [role_A; role_B]) (assertion_doc [role_A; role_B])
                  [split "," 2 role_A; split "," 2 role_B]
                  ltac:(vm_compute; reflexivity) ltac:(vm_compute; reflexivity) _) Hin).
Defined.

(** ** Further properties of the role prompt *)

Lemma getitem_nth {A : Type} (l : list A) (i : Z) (a : A) :
  0 <= i -> nth_error l (Z.to_nat i) = Some a -> getitem l i = Ok a.
Proof.
  intros Hi Hnth. assert (E : (i <? 0) = false) by (apply Z.ltb_ge; lia).
  unfold getitem. cbv zeta. rewrite E. cbv iota. now rewrite E, Hnth.
Qed.

Lemma getitem_In {A : Type} (l : list A) (i : Z) (a : A) :
  getitem l i = Ok a -> In a l.
Proof.
  unfold getitem. cbv zeta.
  destruct ((if i <? 0 then Z.of_nat (length l) + i else i) <? 0); [discriminate|].
  destruct (nth_error l _) as [b|] eqn:E; [|discriminate].
  intros [= <-]. now apply nth_error_In in E.
Qed.

Section MorePrompt.

Variable py_int : string -> option Z.

(** The listing writes one line per role: two blanks, the number of the
    role counted from [count], a closing bracket, a blank and the first
    component of the role. *)
Lemma print_roles_listing (roles : list (list string)) (count : Z) (c : console) :
  Forall (fun role => role <> []) roles ->
  print_roles roles count c =
  (Ok tt,
   {| stdin := stdin c;
      stdout := stdout c ++
                imap (fun i role =>
                        ("  " +:+ decimal (count + Z.of_nat i) +:+ ") " +:+
                         hd EmptyString role) +:+ nl) roles |}).
Proof.
  revert count c. induction roles as [|role roles IH]; intros count c Hall.
  - cbn [print_roles imap]. rewrite app_nil_r. now destruct c.
  - inversion Hall as [|? ? Hrole Hroles]; subst.
    destruct role as [|name role]; [congruence|].
    cbn [print_roles]. change (getitem (name :: role) 0) with (Ok name). cbv iota.
    rewrite IH by assumption. cbn [print stdin stdout imap hd].
    rewrite <- app_assoc. cbn [app]. rewrite Z.add_0_r.
    do 4 f_equal. apply imap_ext. intros i x _. cbn.
    now replace (count + 1 + Z.of_nat i) with (count + Z.of_nat (S i)) by lia.
Qed.

Lemma refused_again (n : Z) (line : string) (lines out : list string) :
  refused py_int n line = true ->
  choice_loop py_int n 0 (line :: lines) out =
  choice_loop py_int n 0 lines (out ++ ["Choice: "]).
Proof.
  intros H. apply choice_loop_again. unfold refused in H.
  destruct (py_int line) as [z|]; [|exact I].
  apply orb_true_iff in H. lia.
Qed.

Lemma choice_loop_skip (n : Z) (skipped lines out : list string) :
  Forall (fun line => refused py_int n line = true) skipped ->
  choice_loop py_int n 0 (skipped ++ lines) out =
  choice_loop py_int n 0 lines (out ++ repeat "Choice: " (length skipped)).
Proof.
  intros H. revert out. induction H as [|line skipped Hline Hskipped IH]; intros out.
  - cbn [app length repeat]. now rewrite app_nil_r.
  - cbn [app length repeat]. rewrite refused_again by assumption.
    rewrite IH, <- app_assoc. reflexivity.
Qed.

Lemma choice_loop_end (n : Z) (out : list string) :
  choice_loop py_int n 0 [] out =
  (Raise EOFError, {| stdin := []; stdout := out ++ ["Choice: "] |}).
Proof. reflexivity. Qed.

Lemma repeat_snoc {A : Type} (x : A) (n : nat) : repeat x n ++ [x] = x :: repeat x n.
Proof. induction n as [|n IH]; [reflexivity|]. cbn [repeat app]. now rewrite IH. Qed.

(** X14. With several roles, each with a first component, the prompt
    writes the heading and one numbered line per role, the numbers starting
    at 1; it asks once for every entry it passes over (an entry [int]
    refuses, or a number below 1 or above the number of roles plus one) and
    once more for the entry it accepts; for an accepted number from 1 to the
    number of roles it returns the role of that number, and the lines after
    the accepted one are left unread. *)
Theorem prompt_for_role_run (roles : list (list string))
  (skipped : list string) (line : string) (lines out : list string) (z : Z)
  (role : list string) :
  length roles <> 1%nat ->
  Forall (fun role => role <> []) roles ->
  Forall (fun l => refused py_int (Z.of_nat (length roles)) l = true) skipped ->
  py_int line = Some z -> 1 <= z ->
  nth_error roles (Z.to_nat (z - 1)) = Some role ->
  prompt_for_role py_int roles {| stdin := skipped ++ line :: lines; stdout := out |} =
  (Ok role,
   {| stdin := lines;
      stdout := out ++ ["Please select a role:" +:+ nl] ++
                imap (fun i role =>
                        ("  " +:+ decimal (1 + Z.of_nat i) +:+ ") " +:+
                         hd EmptyString role) +:+ nl) roles ++
                repeat "Choice: " (S (length skipped)) |}).
Proof.
  intros Hlen Hall Hskipped Hz Hpos Hnth.
  assert (Hlt : (Z.to_nat (z - 1) < length roles)%nat)
    by (apply nth_error_Some; congruence).
  unfold prompt_for_role. apply Nat.eqb_neq in Hlen. rewrite Hlen.
  rewrite print_roles_listing by assumption. cbn [print stdin stdout].
  rewrite choice_loop_skip by assumption.
  rewrite (choice_loop_accept _ _ z) by (assumption || lia).
  rewrite (getitem_nth _ _ role) by (assumption || lia).
  rewrite <- !app_assoc, repeat_snoc. reflexivity.
Qed.

(** X15. When every entry left on the input is passed over, the prompt
    asks once per entry and once more, and raises [EOFError] at the end of
    the input: it never returns a role the user did not choose. *)
Theorem prompt_for_role_end_of_input (roles : list (list string))
  (lines out : list string) :
  length roles <> 1%nat ->
  Forall (fun role => role <> []) roles ->
  Forall (fun l => refused py_int (Z.of_nat (length roles)) l = true) lines ->
  prompt_for_role py_int roles {| stdin := lines; stdout := out |} =
  (Raise EOFError,
   {| stdin := [];
      stdout := out ++ ["Please select a role:" +:+ nl] ++
                imap (fun i role =>
                        ("  " +:+ decimal (1 + Z.of_nat i) +:+ ") " +:+
                         hd EmptyString role) +:+ nl) roles ++
                repeat "Choice: " (S (length lines)) |}).
Proof.
  intros Hlen Hall Hlines.
  unfold prompt_for_role. apply Nat.eqb_neq in Hlen. rewrite Hlen.
  rewrite print_roles_listing by assumption. cbn [print stdin stdout].
  rewrite <- (app_nil_r lines) at 1.
  rewrite choice_loop_skip by assumption. rewrite choice_loop_end.
  rewrite <- !app_assoc, repeat_snoc. reflexivity.
Qed.

(** X16. A role the prompt returns is one of the roles it was given,
    whatever is typed; with no role at all it returns nothing. *)
Theorem prompt_for_role_returns_member (roles : list (list string)) (c : console)
  (role : list string) :
  fst (prompt_for_role py_int roles c) = Ok role -> In role roles.
Proof.
  unfold prompt_for_role. destruct (length roles =? 1)%nat.
  - cbn [fst]. apply getitem_In.
  - destruct (print_roles roles 1 (print "Please select a role:" c)) as [[[]|e] c1];
      [|discriminate].
    destruct (choice_loop py_int (Z.of_nat (length roles)) 0 (stdin c1) (stdout c1))
      as [[k|e] c2]; [|discriminate].
    cbn [fst]. apply getitem_In.
Qed.

Variable fromstring : string -> result element.

Lemma get_saml_aws_roles_sizes (assertion : string) (roles : list (list string)) :
  get_saml_aws_roles fromstring assertion = Ok roles ->
  Forall (fun role => (1 <= length role <= 3)%nat) roles.
Proof.
  intros Hroles. unfold get_saml_aws_roles in Hroles.
  destruct (fromstring assertion) as [doc|e]; [|discriminate].
  cbn [bind] in Hroles. apply comprehension_Forall2 in Hroles.
  induction Hroles as [|v role vs roles' Hrole _ IH]; [constructor|].
  constructor; [|exact IH].
  unfold role_of in Hrole. destruct (text v) as [t|]; [|discriminate].
  injection Hrole as <-. pose proof (length_split "," 2 t). lia.
Qed.

(** X17. The roles [get_saml_aws_roles] returns can always be listed: each
    has a first component.  So for several such roles and an entry from 1
    to their number, the prompt returns the role of that number, which has
    one to three components. *)
Theorem prompt_for_role_after_get_saml_aws_roles (assertion : string)
  (roles : list (list string)) (line : string) (lines out : list string) (z : Z) :
  get_saml_aws_roles fromstring assertion = Ok roles ->
  length roles <> 1%nat ->
  py_int line = Some z -> 1 <= z <= Z.of_nat (length roles) ->
  Forall (fun role => (1 <= length role <= 3)%nat) roles /\
  exists role,
    nth_error roles (Z.to_nat (z - 1)) = Some role /\
    fst (prompt_for_role py_int roles {| stdin := line :: lines; stdout := out |}) =
    Ok role.
Proof.
  intros Hroles Hlen Hz Hw.
  pose proof (get_saml_aws_roles_sizes _ _ Hroles) as Hsize.
  split; [exact Hsize|].
  destruct (nth_error roles (Z.to_nat (z - 1))) as [role|] eqn:Hnth;
    [|apply nth_error_None in Hnth; lia].
  exists role. split; [reflexivity|].
  assert (Hall : Forall (fun role : list string => role <> []) roles).
  { apply (Forall_impl _ _ _ Hsize). intros r Hr ->. cbn in Hr. lia. }
  exact (prompt_for_role_in_range py_int roles line lines out z role Hlen Hall Hz Hnth
           (proj1 Hw)).
Qed.

End MorePrompt.

Lemma prompt_for_role_run_witness :
  prompt_for_role int_decimal example_roles
    {| stdin := ["x"; "0"; "4"; "2"; "1"]; stdout := [] |} =
  (Ok ["arn:aws:iam::111:role/B"; "arn:aws:iam::111:saml-provider/IdP"],
   {| stdin := ["1"];
      stdout := ["Please select a role:" +:+ nl;
                 "  1) arn:aws:iam::111:role/A" +:+ nl;
                 "  2) arn:aws:iam::111:role/B" +:+ nl;
                 "Choice: "; "Choice: "; "Choice: "; "Choice: "] |}).
Proof.
  apply (prompt_for_role_run int_decimal example_roles ["x"; "0"; "4"] "2" ["1"] [] 2).
  - vm_compute. discriminate.
  - repeat constructor; vm_compute; discriminate.
  - repeat constructor.
  - reflexivity.
  - lia.
  - reflexivity.
Defined.

Lemma prompt_for_role_end_of_input_witness :
  prompt_for_role int_decimal example_roles {| stdin := ["x"; "0"; "4"]; stdout := [] |} =
  (Raise EOFError,
   {| stdin := [];
      stdout := ["Please select a role:" +:+ nl;
                 "  1) arn:aws:iam::111:role/A" +:+ nl;
                 "  2) arn:aws:iam::111:role/B" +:+ nl;
                 "Choice: "; "Choice: "; "Choice: "; "Choice: "] |}).
Proof.
  apply (prompt_for_role_end_of_input int_decimal example_roles ["x"; "0"; "4"] []).
  - vm_compute. discriminate.
  - repeat constructor; vm_compute; discriminate.
  - repeat constructor.
Defined.

Lemma prompt_for_role_returns_member_witness :
  fst (prompt_for_role int_decimal example_roles {| stdin := [" 2 "]; stdout := [] |}) =
    Ok ["arn:aws:iam::111:role/B"; "arn:aws:iam::111:saml-provider/IdP"] /\
  In ["arn:aws:iam::111:role/B"; "arn:aws:iam::111:saml-provider/IdP"] example_roles.
Proof.
  assert (H : fst (prompt_for_role int_decimal example_roles
                     {| stdin := [" 2 "]; stdout := [] |}) =
              Ok ["arn:aws:iam::111:role/B"; "arn:aws:iam::111:saml-provider/IdP"])
    by (vm_compute; reflexivity).
  split; [exact H|].
  exact (prompt_for_role_returns_member int_decimal example_roles _ _ H).
Defined.

Lemma prompt_for_role_after_get_saml_aws_roles_witness :
  get_saml_aws_roles (fromstring_table assertions) (assertion_text [role_A; role_B]) =
    Ok example_roles /\
  Forall (fun role => (1 <= length role <= 3)%nat) example_roles /\
  exists role,
    nth_error example_roles (Z.to_nat (1 - 1)) = Some role /\
    fst (prompt_for_role int_decimal example_roles {| stdin := ["1"]; stdout := [] |}) =
    Ok role.
Proof.
  assert (H : get_saml_aws_roles (fromstring_table assertions)
                (assertion_text [role_A; role_B]) = Ok example_roles)
    by (vm_compute; reflexivity).
  split; [exact H|].
  apply (prompt_for_role_after_get_saml_aws_roles int_decimal (fromstring_table assertions)
           (assertion_text [role_A; role_B]) example_roles "1" [] [] 1 H).
  - vm_compute. discriminate.
  - reflexivity.
  - vm_compute. split; discriminate.
Defined.

(** ** Further properties of the form scraping *)

(** A match of the action pattern spans its text somewhere in the page. *)
Lemma search_action_sound (html g : string) :
  search_action html = Some g ->
  has_char dq g = false /\
  exists pre post, html = pre +:+ ("action=" +:+ dquote) +:+ g +:+ dquote +:+ post.
Proof.
  induction html as [|c s IH]; rewrite search_action_unfold.
  - destruct (quoted "action=" EmptyString) as [[g' rest]|] eqn:E; [|discriminate].
    intros [= ->]. apply quoted_spec in E as [E Hg]. split; [exact Hg|].
    exists EmptyString, rest. now rewrite append_nil_l.
  - destruct (quoted "action=" (String c s)) as [[g' rest]|] eqn:E.
    + intros [= ->]. apply quoted_spec in E as [E Hg]. split; [exact Hg|].
      exists EmptyString, rest. now rewrite append_nil_l.
    + intros H. destruct (IH H) as (Hg & pre & post & ->). split; [exact Hg|].
      exists (String c pre), post. now rewrite append_cons.
Qed.

Lemma findall_fields_need_literal (html : string) :
  contains ("name=" +:+ dquote) html = false -> findall_fields html = [].
Proof.
  intros Hno. destruct (findall_fields html) as [|m ms] eqn:E; [reflexivity|].
  destruct (findall_fields_sound html m) as ((pre & post & Hs) & _);
    [rewrite E; now left|].
  assert (Hyes : contains ("name=" +:+ dquote) html = true).
  { apply contains_spec.
    exists pre, (group1 m +:+ dquote +:+ " " +:+ group2 m +:+
                 "value=" +:+ dquote +:+ group4 m +:+ dquote +:+ post).
    rewrite Hs. unfold field_text.
    now repeat rewrite ?append_assoc, ?append_nil_l, ?append_cons. }
  congruence.
Qed.

(** X18. What [extract_form] returns is read from the page: every field
    it binds comes from a match of the field pattern in the page, with that
    name and that value, neither holding a double quote; a page without the
    literal of the name attribute gives no field.  An action that is not
    empty is the group of a match of the action pattern in the page and
    holds no double quote; a page without the literal of the action
    attribute gives the empty action. *)
Theorem extract_form_read_from_page (html : string) :
  (forall name v,
     fields (extract_form html) !! name = Some v ->
     has_char dq name = false /\ has_char dq v = false /\
     exists m pre post,
       group1 m = name /\ group4 m = v /\ html = pre +:+ field_text m +:+ post) /\
  (contains ("name=" +:+ dquote) html = false -> fields (extract_form html) = ∅) /\
  (action (extract_form html) <> EmptyString ->
   has_char dq (action (extract_form html)) = false /\
   exists pre post,
     html = pre +:+ ("action=" +:+ dquote) +:+ action (extract_form html) +:+
            dquote +:+ post) /\
  (contains ("action=" +:+ dquote) html = false ->
   action (extract_form html) = EmptyString).
Proof.
  split; [|split; [|split]].
  - intros name v. unfold extract_form. cbn [fields]. rewrite fields_of_matches.
    rewrite lookup_empty.
    destruct (last (List.filter _ (findall_fields html))) as [m|] eqn:E; [|discriminate].
    intros [= <-]. apply last_Some in E as [l' E].
    assert (Hin : In m (List.filter (fun m => String.eqb (group1 m) name)
                                    (findall_fields html)))
      by (rewrite E; apply in_or_app; right; now left).
    apply filter_In in Hin as [Hin Hname]. apply String.eqb_eq in Hname.
    destruct (findall_fields_sound html m Hin) as ((pre & post & Hs) & H1 & H4).
    rewrite <- Hname. split; [exact H1|]. split; [exact H4|].
    exists m, pre, post. auto.
  - intros Hno. unfold extract_form. cbn [fields].
    now rewrite findall_fields_need_literal.
  - unfold extract_form. cbn [action].
    destruct (search_action html) as [g|] eqn:E; [|congruence].
    intros _. now apply search_action_sound.
  - intros Hno. unfold extract_form. cbn [action].
    now rewrite search_action_None.
Qed.

(** ** The shell handoff *)

Section ShellProperties.

Variable tempdir : string -> string -> string.
Variable call : subprocess_call -> Z.

(** X19. [handoff] hands off to zsh when the variable SHELL of the
    environment holds the letters zsh anywhere in its value, and to bash in
    every other case: when SHELL is not set, and when it names another
    shell. *)
Theorem handoff_shell_choice (prompt_message : string) (env : gmap string string) :
  (forall pre post,
     env !! "SHELL" = Some (pre +:+ "zsh" +:+ post) ->
     handoff tempdir call prompt_message env = handoff_zsh tempdir call prompt_message env) /\
  (env !! "SHELL" = None ->
   handoff tempdir call prompt_message env = handoff_bash tempdir call prompt_message env) /\
  (forall name,
     env !! "SHELL" = Some name -> contains "zsh" name = false ->
     handoff tempdir call prompt_message env = handoff_bash tempdir call prompt_message env).
Proof.
  unfold handoff. split; [|split].
  - intros pre post ->. cbn [default from_option id].
    now replace (contains "zsh" (pre +:+ "zsh" +:+ post)) with true
      by (symmetry; apply contains_spec; eauto).
  - now intros ->.
  - intros name -> Hno. cbn [default from_option id]. now rewrite Hno.
Qed.

Lemma update_env_lookup (kwargs env : gmap string string) (k : string) :
  update_env kwargs env !! k =
  match kwargs !! k with
  | Some v => Some v
  | None => env !! k
  end.
Proof.
  unfold update_env. rewrite lookup_union.
  destruct (kwargs !! k), (env !! k); reflexivity.
Qed.

Lemma handoff_call_env (prompt_message : string) (env : gmap string string) (k : string) :
  k <> "ZDOTDIR" ->
  call_env (started (handoff tempdir call prompt_message env)) !! k = env !! k.
Proof.
  intros Hk. unfold handoff.
  destruct (contains "zsh" (default "bash" (env !! "SHELL"))).
  - cbn [handoff_zsh started call_env]. rewrite update_env_lookup.
    now rewrite lookup_singleton_ne by congruence.
  - reflexivity.
Qed.

(** X20. The variables set with [update_env] reach the process of the
    handoff that follows: each of them has its new value in the
    environment of the process, whatever it was before, and the variables
    not set keep their value; ZDOTDIR apart, which the handoff to zsh sets
    itself.  The process is started with the environment the object holds
    after the handoff, and its return code is returned. *)
Theorem handoff_after_update_env (prompt_message : string)
  (kwargs env : gmap string string) :
  let e := handoff tempdir call prompt_message (update_env kwargs env) in
  (forall k v, kwargs !! k = Some v -> k <> "ZDOTDIR" ->
     call_env (started e) !! k = Some v) /\
  (forall k, kwargs !! k = None -> k <> "ZDOTDIR" ->
     call_env (started e) !! k = env !! k) /\
  call_env (started e) = env_after e /\
  returned e = call (started e).
Proof.
  cbv zeta. split; [|split; [|split]].
  - intros k v Hk Hne. rewrite handoff_call_env by assumption.
    now rewrite update_env_lookup, Hk.
  - intros k Hk Hne. rewrite handoff_call_env by assumption.
    now rewrite update_env_lookup, Hk.
  - unfold handoff. now destruct (contains "zsh" _).
  - unfold handoff. now destruct (contains "zsh" _).
Qed.

Lemma bashrc_updates_empty (prompt_message : string) :
  bashrc_updates prompt_message = EmptyString <-> prompt_message = EmptyString.
Proof.
  unfold bashrc_updates. destruct (String.eqb_spec prompt_message EmptyString) as [->|Hne].
  - tauto.
  - unfold nl. rewrite append_cons. split; [discriminate | contradiction].
Qed.

Lemma zshrc_updates_empty (prompt_message : string) :
  zshrc_updates prompt_message = EmptyString <-> prompt_message = EmptyString.
Proof.
  unfold zshrc_updates. destruct (String.eqb_spec prompt_message EmptyString) as [->|Hne].
  - tauto.
  - unfold nl. rewrite append_cons. split; [discriminate | contradiction].
Qed.

(** X21. The start-up file of a handoff is empty exactly when the prompt
    message is empty, and otherwise holds the message as it is given.  The
    handoff to bash gives [subprocess.call] the one string made of bash,
    the option rcfile and the path of the file, with bash as the
    executable, and leaves the environment as it was; the handoff to zsh
    gives it the string zsh and the executable zsh, and sets ZDOTDIR to the
    directory of the file, in place of any value the variable had; the
    variable stays set in the environment of the object. *)
Theorem handoff_start_up_file (prompt_message : string) (env : gmap string string) :
  let e := handoff tempdir call prompt_message env in
  (rc_text e = EmptyString <-> prompt_message = EmptyString) /\
  (exists pre post, rc_text e = pre +:+ prompt_message +:+ post) /\
  (call_executable (started e) = "bash" /\ rc_name e = ".bashrc" /\
   call_args (started e) = "bash --rcfile " +:+ tempdir ".bashrc" (rc_text e) +:+ "/.bashrc" /\
   env_after e = env
   \/
   call_executable (started e) = "zsh" /\ rc_name e = ".zshrc" /\
   call_args (started e) = "zsh" /\
   env_after e = <[ "ZDOTDIR" := tempdir ".zshrc" (rc_text e) ]> env).
Proof.
  cbv zeta. unfold handoff. destruct (contains "zsh" _).
  - cbn [handoff_zsh rc_text rc_name started call_executable call_args env_after].
    split; [apply zshrc_updates_empty|]. split.
    + unfold zshrc_updates. destruct (String.eqb_spec prompt_message EmptyString) as [->|Hne].
      * now exists EmptyString, EmptyString.
      * exists (nl +:+ indent +:+ "setopt PROMPT_SUBST" +:+ nl +:+ indent +:+ "PROMPT=" +:+
                dquote +:+ "%F{yellow}("),
               (")%f $PROMPT" +:+ dquote +:+ nl +:+ indent).
        now rewrite !append_assoc.
    + right. repeat split. unfold update_env. now rewrite insert_union_singleton_l.
  - cbn [handoff_bash rc_text rc_name started call_executable call_args env_after].
    split; [apply bashrc_updates_empty|]. split.
    + unfold bashrc_updates. destruct (String.eqb_spec prompt_message EmptyString) as [->|Hne].
      * now exists EmptyString, EmptyString.
      * exists (nl +:+ indent +:+ "PS1=" +:+ dquote +:+ "\[\e[\33m\]("),
               (")\[\e[0m\] $PS1" +:+ dquote +:+ nl +:+ indent).
        now rewrite !append_assoc.
    + left. repeat split.
Qed.

End ShellProperties.

(** ** What the stages send *)

Section Requests.

Context {Session : Type}.
Variable send : Session -> request -> result response * Session.
Variable py_int : string -> option Z.
Variable fromstring : string -> result element.
Variable unescape : string -> string.
Variable b64decode : string -> result string.


(** X23. The discovery and the launch each send one request, whatever the
    server answers and whether they return or raise: [lastpass_iterations]
    a POST of the user name to the page iterations.php of the server,
    [get_saml_token] a GET of the launch page of the configuration, without
    data; the form found in the answer is read and never submitted.  Both
    requests verify the certificate as [should_verify] tells for the
    server. *)
Theorem discovery_and_launch_send_once (server : string) (username : bytes)
  (cfg : string) (w : @world Session) :
  sent (snd (lastpass_iterations send py_int server username w)) =
    sent w ++ [{| req_method := POST; req_url := server +:+ "/iterations.php";
                  req_data := {[ "email" := VBytes username ]};
                  req_verify := should_verify server |}] /\
  sent (snd (get_saml_token send unescape b64decode server cfg w)) =
    sent w ++ [{| req_method := GET;
                  req_url := server +:+ "/saml/launch/cfg/" +:+ cfg;
                  req_data := ∅;
                  req_verify := should_verify server |}].
Proof.
  split.
  - apply (lastpass_iterations_sent send py_int).
  - apply (get_saml_token_sent send unescape b64decode).
Qed.

End Requests.
